(** * The Mayl TypeScript SDK: validated requests and typed errors

    A shallow embedding of the client core of the TypeScript SDK
    (ts/src/errors.ts, http-client.ts, email-address-service.ts,
    email-service.ts, inbox-sdk.ts) together with the properties its
    specification states about it.

    Conventions of the embedding.
    - Values have the types the TypeScript declarations give them
      (types.ts).  A run-time check of the source that the declared type
      already decides (a [typeof x !== 'string'] on a field declared
      [string]) has no counterpart here; the truthiness tests of the source
      ([!x], [x && ...], [x || y]) are kept.  Two run-time shapes that the
      code treats on a path of its own are modelled beside the declared
      ones: the envelope of [/health] without [data], and a key of the
      configuration that is there with the value [undefined].
    - A string is a sequence of UTF-16 code units; the model covers the code
      units below 256, one [ascii] each.
    - A [number] is a double: not-a-number, an infinity or a finite value,
      the finite values taken in [Q] (both zeros are [0]).
    - A promise that rejects is a [Throw], one that resolves a [Return];
      the requests handed to axios are recorded in a trace. *)

From Stdlib Require Import ZArith QArith String Ascii List Lia DecimalString.
From stdpp Require Import base option strings gmap.
Import ListNotations.

Local Open Scope string_scope.
Local Open Scope Z_scope.

(** ** JavaScript built-ins used by the SDK *)

Module JS.

(** The [number] type. *)
Inductive number : Type :=
| NaN
| Infinity (negative : bool)
| Finite (q : Q).

Definition of_Z (z : Z) : number := Finite (inject_Z z).

(** [x <= 0] *)
Definition le_zero (x : number) : bool :=
  match x with
  | NaN => false
  | Infinity negative => negative
  | Finite q => Qle_bool q 0
  end.

(** [x > 0] *)
Definition gt_zero (x : number) : bool :=
  match x with
  | NaN => false
  | Infinity negative => negb negative
  | Finite q => negb (Qle_bool q 0)
  end.

(** ToBoolean on a number: [NaN], [0] and [-0] are falsy. *)
Definition truthy_number (x : number) : bool :=
  match x with
  | NaN => false
  | Infinity _ => true
  | Finite q => negb (Qeq_bool q 0)
  end.

(** ToBoolean on a string: only the empty string is falsy. *)
Definition truthy_string (s : string) : bool :=
  match s with
  | EmptyString => false
  | String _ _ => true
  end.

(** ToBoolean on an optional string ([undefined] is falsy). *)
Definition truthy (o : option string) : bool :=
  match o with
  | Some s => truthy_string s
  | None => false
  end.

(** [a || b] where [a] may be undefined or empty. *)
Definition or_else (a : option string) (b : string) : string :=
  match a with
  | Some s => if truthy_string s then s else b
  | None => b
  end.

(** WhiteSpace and LineTerminator code units below 256: TAB, LF, VT, FF,
    CR, SP and NBSP.  This is the class [\s] of a regular expression and
    the set [String.prototype.trim] strips. *)
Definition isWhiteSpace (c : ascii) : bool :=
  let n := N_of_ascii c in
  ((9 <=? n) && (n <=? 13) || (n =? 32) || (n =? 160))%N.

(** [String.prototype.includes] *)
Fixpoint includes (s pat : string) : bool :=
  String.prefix pat s ||
  match s with
  | EmptyString => false
  | String _ s' => includes s' pat
  end.

Fixpoint trimStart (s : string) : string :=
  match s with
  | String c s' => if isWhiteSpace c then trimStart s' else s
  | EmptyString => EmptyString
  end.

(** [s.trim() === ''] : every code unit of [s] is white space. *)
Fixpoint isBlank (s : string) : bool :=
  match s with
  | EmptyString => true
  | String c s' => isWhiteSpace c && isBlank s'
  end.

(** *** [parseInt(string)] with no radix argument *)

Definition digitValue (c : ascii) : option Z :=
  let n := Z.of_N (N_of_ascii c) in
  if (48 <=? n) && (n <=? 57) then Some (n - 48)
  else if (97 <=? n) && (n <=? 122) then Some (n - 87)
  else if (65 <=? n) && (n <=? 90) then Some (n - 55)
  else None.

(** The longest prefix of [s] made of digits of radix [R], read as a
    number in that radix; [None] when it is empty. *)
Fixpoint digits (R : Z) (s : string) (acc : option Z) : option Z :=
  match s with
  | EmptyString => acc
  | String c s' =>
      match digitValue c with
      | Some d =>
          if d <? R then digits R s' (Some (R * default 0 acc + d)) else acc
      | None => acc
      end
  end.

Definition stripSign (s : string) : Z * string :=
  match s with
  | String "-" s' => (-1, s')
  | String "+" s' => (1, s')
  | _ => (1, s)
  end.

Definition stripHexPrefix (s : string) : Z * string :=
  match s with
  | String "0" (String "x" s') => (16, s')
  | String "0" (String "X" s') => (16, s')
  | _ => (10, s)
  end.

(** The value is the mathematical integer the digits denote; it is the
    value JavaScript returns whenever it is below 2^53 in magnitude. *)
Definition parseInt (s : string) : number :=
  let '(sign, s1) := stripSign (trimStart s) in
  let '(R, s2) := stripHexPrefix s1 in
  match digits R s2 None with
  | Some v => of_Z (sign * v)
  | None => NaN
  end.

(** *** Regular expressions

    The fragment the SDK's pattern needs: classes of code units,
    concatenation, alternation and one-or-more repetition, matched
    against the whole string (the pattern is anchored by [^] and [$] and
    has no flags).  Matching is by derivatives. *)
Inductive regex : Type :=
| Void
| Eps
| Class (p : ascii -> bool)
| Cat (r1 r2 : regex)
| Alt (r1 r2 : regex)
| Plus (r : regex).

Fixpoint nullable (r : regex) : bool :=
  match r with
  | Void => false
  | Eps => true
  | Class _ => false
  | Cat r1 r2 => nullable r1 && nullable r2
  | Alt r1 r2 => nullable r1 || nullable r2
  | Plus r => nullable r
  end.

Fixpoint deriv (c : ascii) (r : regex) : regex :=
  match r with
  | Void => Void
  | Eps => Void
  | Class p => if p c then Eps else Void
  | Cat r1 r2 =>
      if nullable r1
      then Alt (Cat (deriv c r1) r2) (deriv c r2)
      else Cat (deriv c r1) r2
  | Alt r1 r2 => Alt (deriv c r1) (deriv c r2)
  | Plus r => Alt (deriv c r) (Cat (deriv c r) (Plus r))
  end.

(** [regex.test(s)] for an anchored pattern. *)
Fixpoint test (r : regex) (s : string) : bool :=
  match s with
  | EmptyString => nullable r
  | String c s' => test (deriv c r) s'
  end.

(** [String(n)] for an array index. *)
Definition index_toString (n : nat) : string :=
  NilZero.string_of_uint (Nat.to_uint n).

End JS.

(** ** errors.ts: the error taxonomy *)

(** One constructor per class of errors.ts, with the arguments of its
    constructor.  [code], [statusCode], [message], [requestId] and the
    class-specific [field] and [retryAfter] are the properties an instance
    carries. *)
Inductive MaylError : Type :=
| AuthenticationError (message : string) (requestId : option string)
| AuthorizationError (message : string) (requestId : option string)
| NotFoundError (resource : string) (id : option string) (requestId : option string)
| ValidationError (message : string) (field : option string) (requestId : option string)
| RateLimitError (message : string) (retryAfter : option JS.number) (requestId : option string)
| NetworkError (message : string) (requestId : option string)
| ServerError (message : string) (statusCode : Z) (requestId : option string)
| TimeoutError (message : string) (requestId : option string)
| EmailAddressError (message : string) (requestId : option string)
| EmailSendError (message : string) (requestId : option string).

Module Err.

(** [this.name = this.constructor.name] *)
Definition name (e : MaylError) : string :=
  match e with
  | AuthenticationError _ _ => "AuthenticationError"
  | AuthorizationError _ _ => "AuthorizationError"
  | NotFoundError _ _ _ => "NotFoundError"
  | ValidationError _ _ _ => "ValidationError"
  | RateLimitError _ _ _ => "RateLimitError"
  | NetworkError _ _ => "NetworkError"
  | ServerError _ _ _ => "ServerError"
  | TimeoutError _ _ => "TimeoutError"
  | EmailAddressError _ _ => "EmailAddressError"
  | EmailSendError _ _ => "EmailSendError"
  end.

Definition code (e : MaylError) : string :=
  match e with
  | AuthenticationError _ _ => "AUTHENTICATION_ERROR"
  | AuthorizationError _ _ => "AUTHORIZATION_ERROR"
  | NotFoundError _ _ _ => "NOT_FOUND_ERROR"
  | ValidationError _ _ _ => "VALIDATION_ERROR"
  | RateLimitError _ _ _ => "RATE_LIMIT_ERROR"
  | NetworkError _ _ => "NETWORK_ERROR"
  | ServerError _ _ _ => "SERVER_ERROR"
  | TimeoutError _ _ => "TIMEOUT_ERROR"
  | EmailAddressError _ _ => "EMAIL_ADDRESS_ERROR"
  | EmailSendError _ _ => "EMAIL_SEND_ERROR"
  end.

Definition statusCode (e : MaylError) : Z :=
  match e with
  | AuthenticationError _ _ => 401
  | AuthorizationError _ _ => 403
  | NotFoundError _ _ _ => 404
  | ValidationError _ _ _ => 400
  | RateLimitError _ _ _ => 429
  | NetworkError _ _ => 0
  | ServerError _ status _ => status
  | TimeoutError _ _ => 408
  | EmailAddressError _ _ => 400
  | EmailSendError _ _ => 400
  end.

Definition message (e : MaylError) : string :=
  match e with
  | NotFoundError resource id _ =>
      match id with
      | Some i =>
          if JS.truthy_string i
          then resource +:+ " with ID '" +:+ i +:+ "' not found"
          else resource +:+ " not found"
      | None => resource +:+ " not found"
      end
  | AuthenticationError m _ | AuthorizationError m _
  | ValidationError m _ _ | RateLimitError m _ _ | NetworkError m _
  | ServerError m _ _ | TimeoutError m _ | EmailAddressError m _
  | EmailSendError m _ => m
  end.

Definition requestId (e : MaylError) : option string :=
  match e with
  | NotFoundError _ _ r | ValidationError _ _ r | RateLimitError _ _ r
  | ServerError _ _ r => r
  | AuthenticationError _ r | AuthorizationError _ r | NetworkError _ r
  | TimeoutError _ r | EmailAddressError _ r | EmailSendError _ r => r
  end.

(** [ValidationError.field] *)
Definition field (e : MaylError) : option string :=
  match e with
  | ValidationError _ f _ => f
  | _ => None
  end.

(** [RateLimitError.retryAfter] *)
Definition retryAfter (e : MaylError) : option JS.number :=
  match e with
  | RateLimitError _ r _ => r
  | _ => None
  end.

End Err.

(** ** http-client.ts: the transport adapter *)

(** What the adapter reads of an axios error (the parts of [AxiosError]
    that [handleAPIError] looks at). *)
Record ResponseBody : Type := mkResponseBody
  { body_error : option string }.

Record AxiosResponse : Type := mkAxiosResponse
  { status : Z;
    resp_data : option ResponseBody;
    resp_headers : option (gmap string string) }.

Record RequestConfig : Type := mkRequestConfig
  { config_headers : option (gmap string string) }.

Record AxiosError : Type := mkAxiosError
  { code : option string;
    message : string;
    config : option RequestConfig;
    response : option AxiosResponse }.

(** [error.code === 'ECONNABORTED' || error.message.includes('timeout')] *)
Definition timeoutIndicator (error : AxiosError) : bool :=
  bool_decide (code error = Some "ECONNABORTED")
  || JS.includes (message error) "timeout".

(** [(data as any)?.error || error.message] *)
Definition errorMessage (error : AxiosError) (r : AxiosResponse) : string :=
  JS.or_else
    (match resp_data r with Some d => body_error d | None => None end)
    (message error).

(** [error.response.headers?.['retry-after']] *)
Definition retryAfterHeader (r : AxiosResponse) : option string :=
  match resp_headers r with
  | Some h => h !! "retry-after"
  | None => None
  end.

Definition status_toString (z : Z) : string :=
  NilZero.string_of_int (Z.to_int z).

(** [error.config?.headers?.['X-Request-ID']] *)
Definition requestIdOf (error : AxiosError) : option string :=
  match config error with
  | Some c =>
      match config_headers c with
      | Some h => h !! "X-Request-ID"
      | None => None
      end
  | None => None
  end.

Definition handleAPIError (error : AxiosError) : MaylError :=
  let requestId := requestIdOf error in
  match response error with
  | None =>
      if timeoutIndicator error
      then TimeoutError "Request timeout" requestId
      else NetworkError ("Network error: " +:+ message error) requestId
  | Some r =>
      let message := errorMessage error r in
      match status r with
      | 401 => AuthenticationError message requestId
      | 403 => AuthorizationError message requestId
      | 404 => NotFoundError "Resource" None requestId
      | 400 => ValidationError message None requestId
      | 429 =>
          let retryAfter := retryAfterHeader r in
          RateLimitError message
            (match retryAfter with
             | Some h => if JS.truthy_string h then Some (JS.parseInt h) else None
             | None => None
             end)
            requestId
      | 500 | 502 | 503 | 504 => ServerError message (status r) requestId
      | _ =>
          ServerError ("HTTP " +:+ status_toString (status r) +:+ ": " +:+ message)
            (status r) requestId
      end
  end.

(** ** types.ts *)

#[local] Set Warnings "-register-all".

(** A value of type [any], as it appears in [Record<string, any>]. *)
Inductive json : Type :=
| JNull
| JBool (b : bool)
| JNumber (n : JS.number)
| JString (s : string)
| JArray (l : list json)
| JObject (l : list (string * json)).

(** [Record<string, any>], keys in insertion order. *)
Definition Metadata : Type := list (string * json).

(** A [Date]: its time value in milliseconds, or an invalid date (time
    value [NaN]). *)
Inductive Date : Type :=
| Invalid_Date
| Date_at (time : Z).

(** ['temporary' | 'persistent'] *)
Inductive AddressType : Type := temporary | persistent.

(** ['active' | 'expired' | 'disabled'] *)
Inductive AddressStatus : Type := active | expired | disabled.

(** ['sent' | 'delivered' | 'failed' | 'scheduled'] *)
Inductive EmailStatus : Type := sent | delivered | failed | scheduled.

Record CreateEmailAddressOptions : Type := mkCreateEmailAddressOptions
  { type : AddressType;
    prefix : option string;
    domain : option string;
    expirationMinutes : option JS.number;
    create_metadata : option Metadata }.

(** [EmailAddress], generic in the representation of its timestamps: the
    wire carries strings, the SDK returns dates. *)
Record EmailAddressOf (time : Type) : Type := mkEmailAddress
  { address_id : string;
    email_address : string;
    address_type : AddressType;
    createdAt : time;
    expiresAt : option time;
    address_status : AddressStatus;
    address_metadata : option Metadata }.
Arguments mkEmailAddress {time}.
Arguments address_id {time}.
Arguments email_address {time}.
Arguments address_type {time}.
Arguments createdAt {time}.
Arguments expiresAt {time}.
Arguments address_status {time}.
Arguments address_metadata {time}.

Definition EmailAddress : Type := EmailAddressOf Date.

Record EmailRecipient : Type := mkEmailRecipient
  { email : string;
    name : option string }.

(** [string | Buffer] *)
Inductive Content : Type :=
| Text (s : string)
| Buffer (bytes : list Byte.byte).

Record EmailAttachment : Type := mkEmailAttachment
  { filename : string;
    contentType : string;
    content : Content;
    cid : option string }.

Record SendEmailOptions : Type := mkSendEmailOptions
  { fromEmailId : string;
    to : list EmailRecipient;
    cc : option (list EmailRecipient);
    bcc : option (list EmailRecipient);
    subject : string;
    text : option string;
    html : option string;
    attachments : option (list EmailAttachment);
    headers : option (list (string * string));
    scheduledAt : option Date;
    threadId : option string;
    send_metadata : option Metadata }.

Record SentEmailOf (time : Type) : Type := mkSentEmail
  { sent_id : string;
    sent_fromEmailId : string;
    sent_to : list EmailRecipient;
    sent_cc : option (list EmailRecipient);
    sent_bcc : option (list EmailRecipient);
    sent_subject : string;
    sentAt : time;
    sent_status : EmailStatus;
    sent_threadId : option string;
    sent_metadata : option Metadata }.
Arguments mkSentEmail {time}.
Arguments sent_id {time}.
Arguments sent_fromEmailId {time}.
Arguments sent_to {time}.
Arguments sent_cc {time}.
Arguments sent_bcc {time}.
Arguments sent_subject {time}.
Arguments sentAt {time}.
Arguments sent_status {time}.
Arguments sent_threadId {time}.
Arguments sent_metadata {time}.

Definition SentEmail : Type := SentEmailOf Date.

(** The response envelope. *)
Record APIResponse (T : Type) : Type := mkAPIResponse
  { data : T;
    success : bool;
    error : option string;
    envelope_requestId : option string }.
Arguments mkAPIResponse {T}.
Arguments data {T}.
Arguments success {T}.
Arguments error {T}.
Arguments envelope_requestId {T}.

Record PaginationOptions : Type := mkPaginationOptions
  { page : option JS.number;
    limit : option JS.number }.

Record PaginatedResponse (T : Type) : Type := mkPaginatedResponse
  { items : list T;
    current_page : JS.number;
    per_page : JS.number;
    total : JS.number;
    totalPages : JS.number;
    hasNext : bool;
    hasPrevious : bool }.
Arguments mkPaginatedResponse {T}.
Arguments items {T}.
Arguments current_page {T}.
Arguments per_page {T}.
Arguments total {T}.
Arguments totalPages {T}.
Arguments hasNext {T}.
Arguments hasPrevious {T}.

(** ** The requests handed to axios *)

Inductive Method : Type := GET | POST | PUT | PATCH | DELETE.

(** [Date.prototype.toISOString]: the ISO-8601 rendering of a time value,
    kept symbolic. *)
Inductive ISOString : Type := ISO (time : Z).

(** An attachment as [processAttachment] sends it; [Base64] stands for
    [buffer.toString('base64')]. *)
Inductive WireContent : Type :=
| Verbatim (s : string)
| Base64 (bytes : list Byte.byte).

Record WireAttachment : Type := mkWireAttachment
  { wire_filename : string;
    wire_contentType : string;
    wire_content : WireContent;
    wire_cid : option string }.

Record SendBody : Type := mkSendBody
  { body_fromEmailId : string;
    body_to : list EmailRecipient;
    body_cc : option (list EmailRecipient);
    body_bcc : option (list EmailRecipient);
    body_subject : string;
    body_text : option string;
    body_html : option string;
    body_attachments : option (list WireAttachment);
    body_headers : option (list (string * string));
    body_scheduledAt : option ISOString;
    body_threadId : option string;
    body_metadata : option Metadata }.

Record AddressUpdates : Type := mkAddressUpdates
  { updates_metadata : option Metadata;
    updates_status : option AddressStatus }.

Inductive Body : Type :=
| CreateBody (o : CreateEmailAddressOptions)
| UpdateBody (u : AddressUpdates)
| ExtendBody (additionalMinutes : JS.number)
| SendEmailBody (b : SendBody).

(** A value appended to [URLSearchParams]. *)
Inductive QueryValue : Type :=
| QString (s : string)
| QNumber (n : JS.number)
| QDate (d : ISOString).

(** The endpoint of a request: its path and the entries of its query
    string, in the order they were appended (an empty list: no query
    string). *)
Record Request : Type := mkRequest
  { method : Method;
    path : string;
    query : list (string * QueryValue);
    body : option Body }.

(** ** Completions and the client monad *)

(** What a call can throw: a member of the taxonomy, a built-in
    [RangeError] ([toISOString] on an invalid date) or a built-in
    [TypeError] (a property read on [undefined] or [null]). *)
Inductive Exn : Type :=
| Mayl (e : MaylError)
| RangeError (message : string)
| TypeError (message : string).

Definition exn_message (e : Exn) : string :=
  match e with
  | Mayl e => Err.message e
  | RangeError m => m
  | TypeError m => m
  end.

Inductive Completion (A : Type) : Type :=
| Return (a : A)
| Throw (e : Exn).
Arguments Return {A}.
Arguments Throw {A}.

Definition returns {A} (c : Completion A) : bool :=
  match c with Return _ => true | Throw _ => false end.

(** The outcome of a call: how it completed and the requests it made. *)
Record Outcome (A : Type) : Type := mkOutcome
  { completion : Completion A;
    requests : list Request }.
Arguments mkOutcome {A}.
Arguments completion {A}.
Arguments requests {A}.

(** The network as axios presents it to the adapter: a request either
    fails with an [AxiosError] (no response, or a response whose status
    axios rejects) or yields the body of a 2xx response. *)
Definition Axios (T : Type) : Type := Request -> AxiosError + APIResponse T.

(** Computations of the client against an endpoint whose payload is [T]. *)
Definition Client (T A : Type) : Type := Axios T -> Outcome A.

Definition ret {T A} (a : A) : Client T A :=
  fun _ => mkOutcome (Return a) [].

Definition throw {T A} (e : MaylError) : Client T A :=
  fun _ => mkOutcome (Throw (Mayl e)) [].

Definition bind {T A B} (m : Client T A) (k : A -> Client T B) : Client T B :=
  fun axios =>
    let o := m axios in
    match completion o with
    | Return a =>
        let o' := k a axios in
        mkOutcome (completion o') (requests o ++ requests o')
    | Throw e => mkOutcome (Throw e) (requests o)
    end.

(** [try { m } catch (error) { handler(error) }] *)
Definition try_catch {T A} (m : Client T A) (handler : Exn -> Client T A)
  : Client T A :=
  fun axios =>
    let o := m axios in
    match completion o with
    | Return a => o
    | Throw e =>
        let o' := handler e axios in
        mkOutcome (completion o') (requests o ++ requests o')
    end.

(** A synchronous step that may throw. *)
Definition lift {T A} (c : Completion A) : Client T A :=
  fun _ => mkOutcome c [].

Declare Scope client_scope.
Delimit Scope client_scope with client.
Notation "x <- m ;; k" := (bind m (fun x => k))
  (at level 100, m at next level, right associativity) : client_scope.
Notation "m ;;; k" := (bind m (fun _ => k))
  (at level 100, right associativity) : client_scope.
Local Open Scope client_scope.

Module HTTPClient.

(** [this.client.request]: the request goes through axios; the response
    interceptor turns a failure into [handleAPIError(error)], and the
    method returns [response.data], the envelope. *)
Definition request {T} (m : Method) (endpoint : string)
    (q : list (string * QueryValue)) (b : option Body)
  : Client T (APIResponse T) :=
  fun axios =>
    let req := mkRequest m endpoint q b in
    match axios req with
    | inl error => mkOutcome (Throw (Mayl (handleAPIError error))) [req]
    | inr envelope => mkOutcome (Return envelope) [req]
    end.

Definition get {T} (endpoint : string) (q : list (string * QueryValue))
  : Client T (APIResponse T) := request GET endpoint q None.

Definition post {T} (endpoint : string) (b : option Body)
  : Client T (APIResponse T) := request POST endpoint [] b.

Definition put {T} (endpoint : string) (b : option Body)
  : Client T (APIResponse T) := request PUT endpoint [] b.

Definition patch {T} (endpoint : string) (b : option Body)
  : Client T (APIResponse T) := request PATCH endpoint [] b.

Definition delete {T} (endpoint : string)
  : Client T (APIResponse T) := request DELETE endpoint [] None.

End HTTPClient.

(** ** Validation steps *)

(** [if (cond) { throw new ValidationError(message); }] *)
Definition throw_if (cond : bool) (message : string) : Completion unit :=
  if cond then Throw (Mayl (ValidationError message None None)) else Return tt.

(** Two statements in sequence: the second runs when the first returns. *)
Definition and_then (c1 c2 : Completion unit) : Completion unit :=
  match c1 with
  | Return _ => c2
  | Throw e => Throw e
  end.
Infix ">>" := and_then (at level 61, left associativity).

(** [array.forEach((item, index) => f(item, index))], from [index] on. *)
Fixpoint forEach {A} (f : A -> nat -> Completion unit) (l : list A)
    (index : nat) : Completion unit :=
  match l with
  | [] => Return tt
  | x :: l' => f x index >> forEach f l' (S index)
  end.

(** [if (o) { f(o) }] for an optional array. *)
Definition when_present {A} (o : option A) (f : A -> Completion unit)
  : Completion unit :=
  match o with
  | Some x => f x
  | None => Return tt
  end.

(** The clock and the date parser of the host: [new Date()] and
    [new Date(string)]. *)
Record Runtime : Type := mkRuntime
  { Date_now : Z;
    Date_parse : string -> Date }.

(** [date.toISOString()] throws on an invalid date. *)
Definition toISOString (d : Date) : Completion ISOString :=
  match d with
  | Date_at t => Return (ISO t)
  | Invalid_Date => Throw (RangeError "Invalid time value")
  end.

(** [a <= b] on dates compares time values; it is false when either is
    [NaN]. *)
Definition Date_le (a b : Date) : bool :=
  match a, b with
  | Date_at x, Date_at y => x <=? y
  | _, _ => false
  end.

(** ** email-address-service.ts *)

Module EmailAddressService.

Definition type_toString (t : AddressType) : string :=
  match t with
  | temporary => "temporary"
  | persistent => "persistent"
  end.

Definition status_toString (s : AddressStatus) : string :=
  match s with
  | active => "active"
  | expired => "expired"
  | disabled => "disabled"
  end.

Record ListOptions : Type := mkListOptions
  { list_type : option AddressType;
    list_status : option AddressStatus;
    list_pagination : option PaginationOptions }.

Definition validateCreateOptions (options : CreateEmailAddressOptions)
  : Completion unit :=
  match expirationMinutes options with
  | Some minutes =>
      throw_if (JS.le_zero minutes)
        "Expiration minutes must be a positive number"
      >> throw_if (match type options with
                   | persistent => true
                   | temporary => false
                   end)
           "Expiration minutes cannot be set for persistent email addresses"
  | None => Return tt
  end.

(** [if (!id || typeof id !== 'string')] *)
Definition validateId (id : string) : Completion unit :=
  throw_if (negb (JS.truthy_string id)) "Email address ID is required".

(** The entries appended to [URLSearchParams] for the pagination. *)
Definition paginationParams (p : option PaginationOptions)
  : list (string * QueryValue) :=
  match p with
  | Some p =>
      (match page p with
       | Some n => if JS.truthy_number n then [("page", QNumber n)] else []
       | None => []
       end ++
       match limit p with
       | Some n => if JS.truthy_number n then [("limit", QNumber n)] else []
       | None => []
       end)%list
  | None => []
  end.

Section WithRuntime.
Variable rt : Runtime.

Definition parseEmailAddress (d : EmailAddressOf string) : EmailAddress :=
  {| address_id := address_id d;
     email_address := email_address d;
     address_type := address_type d;
     createdAt := Date_parse rt (createdAt d);
     expiresAt :=
       match expiresAt d with
       | Some s => if JS.truthy_string s then Some (Date_parse rt s) else None
       | None => None
       end;
     address_status := address_status d;
     address_metadata := address_metadata d |}.

(** [if (!response.success) throw new EmailAddressError(...)], then the
    parse of the payload. *)
Definition unwrap {T A} (response : APIResponse T) (fallback : string)
    (parse : T -> A) : Client T A :=
  if negb (success response)
  then throw (EmailAddressError (JS.or_else (error response) fallback) None)
  else ret (parse (data response)).

Definition create (options : CreateEmailAddressOptions)
  : Client (EmailAddressOf string) EmailAddress :=
  lift (validateCreateOptions options) ;;;
  response <- HTTPClient.post "/email-addresses" (Some (CreateBody options)) ;;
  unwrap response "Failed to create email address" parseEmailAddress.

Definition get (id : string)
  : Client (EmailAddressOf string) EmailAddress :=
  lift (validateId id) ;;;
  response <- HTTPClient.get ("/email-addresses/" +:+ id) [] ;;
  unwrap response "Failed to get email address" parseEmailAddress.

Definition list (options : option ListOptions)
  : Client (PaginatedResponse (EmailAddressOf string))
           (PaginatedResponse EmailAddress) :=
  let params :=
    match options with
    | Some o =>
        (match list_type o with
         | Some t => [("type", QString (type_toString t))]
         | None => []
         end ++
         match list_status o with
         | Some s => [("status", QString (status_toString s))]
         | None => []
         end ++
         paginationParams (list_pagination o))%list
    | None => []
    end in
  response <- HTTPClient.get "/email-addresses" params ;;
  unwrap response "Failed to list email addresses"
    (fun d =>
       {| items := List.map parseEmailAddress (items d);
          current_page := current_page d;
          per_page := per_page d;
          total := total d;
          totalPages := totalPages d;
          hasNext := hasNext d;
          hasPrevious := hasPrevious d |}).

Definition update (id : string) (updates : AddressUpdates)
  : Client (EmailAddressOf string) EmailAddress :=
  lift (validateId id) ;;;
  response <- HTTPClient.patch ("/email-addresses/" +:+ id)
                (Some (UpdateBody updates)) ;;
  unwrap response "Failed to update email address" parseEmailAddress.

Definition delete (id : string) : Client json unit :=
  lift (validateId id) ;;;
  response <- HTTPClient.delete ("/email-addresses/" +:+ id) ;;
  unwrap response "Failed to delete email address" (fun _ => tt).

Definition extend (id : string) (additionalMinutes : JS.number)
  : Client (EmailAddressOf string) EmailAddress :=
  lift (validateId id) ;;;
  lift (throw_if (negb (JS.truthy_number additionalMinutes)
                  || JS.le_zero additionalMinutes)
          "Additional minutes must be a positive number") ;;;
  response <- HTTPClient.post ("/email-addresses/" +:+ id +:+ "/extend")
                (Some (ExtendBody additionalMinutes)) ;;
  unwrap response "Failed to extend email address" parseEmailAddress.

End WithRuntime.

End EmailAddressService.

(** ** email-service.ts *)

Module EmailService.

Definition status_toString (s : EmailStatus) : string :=
  match s with
  | sent => "sent"
  | delivered => "delivered"
  | failed => "failed"
  | scheduled => "scheduled"
  end.

Record ListOptions : Type := mkListOptions
  { list_fromEmailId : option string;
    list_status : option EmailStatus;
    list_threadId : option string;
    since : option Date;
    until : option Date;
    list_pagination : option PaginationOptions }.

(** The payload of [/emails/{id}/status] and what [getDeliveryStatus]
    returns, generic in the representation of the timestamps. *)
Record DeliveryStatusOf (time : Type) : Type := mkDeliveryStatus
  { delivery_status : EmailStatus;
    deliveredAt : option time;
    failureReason : option string;
    bounceType : option string;
    opens : option JS.number;
    clicks : option JS.number;
    lastOpenedAt : option time;
    lastClickedAt : option time }.
Arguments mkDeliveryStatus {time}.
Arguments delivery_status {time}.
Arguments deliveredAt {time}.
Arguments failureReason {time}.
Arguments bounceType {time}.
Arguments opens {time}.
Arguments clicks {time}.
Arguments lastOpenedAt {time}.
Arguments lastClickedAt {time}.

(** [[^\s@]] *)
Definition addressChar (c : ascii) : bool :=
  negb (JS.isWhiteSpace c || Ascii.eqb c "@").

(** [/^[^\s@]+@[^\s@]+\.[^\s@]+$/] *)
Definition emailRegex : JS.regex :=
  JS.Cat (JS.Plus (JS.Class addressChar))
    (JS.Cat (JS.Class (Ascii.eqb "@"))
       (JS.Cat (JS.Plus (JS.Class addressChar))
          (JS.Cat (JS.Class (Ascii.eqb "."))
             (JS.Plus (JS.Class addressChar))))).

Definition validateEmailRecipient (recipient : EmailRecipient)
    (field : string) : Completion unit :=
  throw_if (negb (JS.truthy_string (email recipient)))
    (field +:+ ".email is required")
  >> throw_if (negb (JS.test emailRegex (email recipient)))
       (field +:+ ".email is not a valid email address").

(** [!attachment.content]: an empty string is falsy, a [Buffer] never. *)
Definition content_truthy (c : Content) : bool :=
  match c with
  | Text s => JS.truthy_string s
  | Buffer _ => true
  end.

Definition validateEmailAttachment (attachment : EmailAttachment)
    (field : string) : Completion unit :=
  throw_if (negb (JS.truthy_string (filename attachment)))
    (field +:+ ".filename is required")
  >> throw_if (negb (JS.truthy_string (contentType attachment)))
       (field +:+ ".contentType is required")
  >> throw_if (negb (content_truthy (content attachment)))
       (field +:+ ".content is required").

(** The template [`to[${index}]`]. *)
Definition indexed (array : string) (index : nat) : string :=
  array +:+ "[" +:+ JS.index_toString index +:+ "]".

Definition validateRecipients (array : string) (l : list EmailRecipient)
  : Completion unit :=
  forEach (fun recipient index =>
             validateEmailRecipient recipient (indexed array index)) l 0.

(** [now] is the value of [new Date()] when the schedule is checked. *)
Definition validateSendOptions (now : Date) (options : SendEmailOptions)
  : Completion unit :=
  throw_if (negb (JS.truthy_string (fromEmailId options)))
    "From email ID is required"
  >> throw_if (match to options with [] => true | _ => false end)
       "At least one recipient is required"
  >> validateRecipients "to" (to options)
  >> when_present (cc options) (validateRecipients "cc")
  >> when_present (bcc options) (validateRecipients "bcc")
  >> throw_if (negb (JS.truthy_string (subject options))
               || JS.isBlank (subject options))
       "Subject is required"
  >> throw_if (negb (JS.truthy (text options)) && negb (JS.truthy (html options)))
       "Either text or HTML content is required"
  >> when_present (attachments options)
       (fun l =>
          forEach (fun attachment index =>
                     validateEmailAttachment attachment
                       (indexed "attachments" index)) l 0)
  >> when_present (scheduledAt options)
       (fun d => throw_if (Date_le d now)
                   "Scheduled time must be in the future").

Definition processAttachment (attachment : EmailAttachment) : WireAttachment :=
  {| wire_filename := filename attachment;
     wire_contentType := contentType attachment;
     wire_content :=
       match content attachment with
       | Buffer bytes => Base64 bytes
       | Text s => Verbatim s
       end;
     wire_cid := cid attachment |}.

(** [d?.toISOString()] *)
Definition toISOString_opt (d : option Date) : Completion (option ISOString) :=
  match d with
  | Some d =>
      match toISOString d with
      | Return s => Return (Some s)
      | Throw e => Throw e
      end
  | None => Return None
  end.

(** [if (!id || typeof id !== 'string')] *)
Definition validateId (id : string) : Completion unit :=
  throw_if (negb (JS.truthy_string id)) "Email ID is required".

(** [if (d) { params.append(key, d.toISOString()) }] *)
Definition dateParam (key : string) (d : option Date)
  : Completion (list (string * QueryValue)) :=
  match d with
  | Some d =>
      match toISOString d with
      | Return s => Return [(key, QDate s)]
      | Throw e => Throw e
      end
  | None => Return []
  end.

Definition stringParam (key : string) (s : option string)
  : list (string * QueryValue) :=
  match s with
  | Some s => if JS.truthy_string s then [(key, QString s)] else []
  | None => []
  end.

Section WithRuntime.
Variable rt : Runtime.

Definition parseSentEmail (d : SentEmailOf string) : SentEmail :=
  {| sent_id := sent_id d;
     sent_fromEmailId := sent_fromEmailId d;
     sent_to := sent_to d;
     sent_cc := sent_cc d;
     sent_bcc := sent_bcc d;
     sent_subject := sent_subject d;
     sentAt := Date_parse rt (sentAt d);
     sent_status := sent_status d;
     sent_threadId := sent_threadId d;
     sent_metadata := sent_metadata d |}.

(** [if (!response.success) throw new EmailSendError(...)], then the
    parse of the payload. *)
Definition unwrap {T A} (response : APIResponse T) (fallback : string)
    (parse : T -> A) : Client T A :=
  if negb (success response)
  then throw (EmailSendError (JS.or_else (error response) fallback) None)
  else ret (parse (data response)).

Definition send (options : SendEmailOptions)
  : Client (SentEmailOf string) SentEmail :=
  lift (validateSendOptions (Date_at (Date_now rt)) options) ;;;
  when <- lift (toISOString_opt (scheduledAt options)) ;;
  let requestBody :=
    {| body_fromEmailId := fromEmailId options;
       body_to := to options;
       body_cc := cc options;
       body_bcc := bcc options;
       body_subject := subject options;
       body_text := text options;
       body_html := html options;
       body_attachments :=
         option_map (List.map processAttachment) (attachments options);
       body_headers := headers options;
       body_scheduledAt := when;
       body_threadId := threadId options;
       body_metadata := send_metadata options |} in
  response <- HTTPClient.post "/emails/send"
                (Some (SendEmailBody requestBody)) ;;
  unwrap response "Failed to send email" parseSentEmail.

Definition get (id : string) : Client (SentEmailOf string) SentEmail :=
  lift (validateId id) ;;;
  response <- HTTPClient.get ("/emails/" +:+ id) [] ;;
  unwrap response "Failed to get email" parseSentEmail.

Definition list (options : option ListOptions)
  : Client (PaginatedResponse (SentEmailOf string))
           (PaginatedResponse SentEmail) :=
  params <- lift
    (match options with
     | Some o =>
         match dateParam "since" (since o) with
         | Return s =>
             match dateParam "until" (until o) with
             | Return u =>
                 Return
                   (stringParam "fromEmailId" (list_fromEmailId o) ++
                    match list_status o with
                    | Some st => [("status", QString (status_toString st))]
                    | None => []
                    end ++
                    stringParam "threadId" (list_threadId o) ++
                    s ++ u ++
                    EmailAddressService.paginationParams (list_pagination o))%list
             | Throw e => Throw e
             end
         | Throw e => Throw e
         end
     | None => Return []
     end) ;;
  response <- HTTPClient.get "/emails" params ;;
  unwrap response "Failed to list emails"
    (fun d =>
       {| items := List.map parseSentEmail (items d);
          current_page := current_page d;
          per_page := per_page d;
          total := total d;
          totalPages := totalPages d;
          hasNext := hasNext d;
          hasPrevious := hasPrevious d |}).

Definition cancel (id : string) : Client json unit :=
  lift (validateId id) ;;;
  response <- HTTPClient.post ("/emails/" +:+ id +:+ "/cancel") None ;;
  unwrap response "Failed to cancel email" (fun _ => tt).

Definition resend (id : string) : Client (SentEmailOf string) SentEmail :=
  lift (validateId id) ;;;
  response <- HTTPClient.post ("/emails/" +:+ id +:+ "/resend") None ;;
  unwrap response "Failed to resend email" parseSentEmail.

Definition parseDate_opt (s : option string) : option Date :=
  match s with
  | Some s => if JS.truthy_string s then Some (Date_parse rt s) else None
  | None => None
  end.

Definition getDeliveryStatus (id : string)
  : Client (DeliveryStatusOf string) (DeliveryStatusOf Date) :=
  lift (validateId id) ;;;
  response <- HTTPClient.get ("/emails/" +:+ id +:+ "/status") [] ;;
  unwrap response "Failed to get delivery status"
    (fun d =>
       {| delivery_status := delivery_status d;
          deliveredAt := parseDate_opt (deliveredAt d);
          failureReason := failureReason d;
          bounceType := bounceType d;
          opens := opens d;
          clicks := clicks d;
          lastOpenedAt := parseDate_opt (lastOpenedAt d);
          lastClickedAt := parseDate_opt (lastClickedAt d) |}).

End WithRuntime.

End EmailService.

(** ** inbox-sdk.ts: the facade *)

Module InboxSDK.

(** The payload of [/health]. *)
Record HealthData : Type := mkHealthData
  { health_status : string;
    health_message : string;
    health_apiVersion : string;
    health_accountId : string }.

(** What the envelope of [/health] holds as [data] at run time: the
    payload, or nothing ([undefined] when the key is missing, [null] when
    the server sent [null]), as in an envelope [{ success: false, error }]. *)
Inductive Nullish : Type := js_undefined | js_null.

Inductive Payload : Type :=
| Data (d : HealthData)
| NoData (n : Nullish).

(** The message of the [TypeError] of [response.data.message] when
    [response.data] is [undefined] or [null], in the wording of V8. *)
Definition missingData (n : Nullish) : string :=
  "Cannot read properties of "
  +:+ match n with js_undefined => "undefined" | js_null => "null" end
  +:+ " (reading 'message')".

(** [response.data.<property>]: the payload, if there is one to read
    from. *)
Definition read (p : Payload) : Completion HealthData :=
  match p with
  | Data d => Return d
  | NoData n => Throw (TypeError (missingData n))
  end.

(** ['healthy' | 'unhealthy'] *)
Inductive HealthStatus : Type := healthy | unhealthy.

Record Health : Type := mkHealth
  { status : HealthStatus;
    message : string;
    timestamp : Date;
    apiVersion : option string;
    accountId : option string }.

(** The payload of [/account] and what [getAccountInfo] returns, generic
    in the representation of the timestamps. *)
Record AccountInfoOf (time : Type) : Type := mkAccountInfo
  { account_accountId : string;
    plan : string;
    emailAddressLimit : JS.number;
    emailAddressUsed : JS.number;
    emailsSentThisMonth : JS.number;
    emailLimitPerMonth : JS.number;
    account_createdAt : time;
    lastActivity : time }.
Arguments mkAccountInfo {time}.
Arguments account_accountId {time}.
Arguments plan {time}.
Arguments emailAddressLimit {time}.
Arguments emailAddressUsed {time}.
Arguments emailsSentThisMonth {time}.
Arguments emailLimitPerMonth {time}.
Arguments account_createdAt {time}.
Arguments lastActivity {time}.

Section WithRuntime.
Variable rt : Runtime.

Definition healthCheck : Client Payload Health :=
  try_catch
    (response <- HTTPClient.get "/health" [] ;;
     payload <- lift (read (data response)) ;;
     ret {| status := healthy;
            message :=
              JS.or_else (Some (health_message payload)) "API is healthy";
            timestamp := Date_at (Date_now rt);
            apiVersion := Some (health_apiVersion payload);
            accountId := Some (health_accountId payload) |})
    (fun error =>
       ret {| status := unhealthy;
              message :=
                JS.or_else (Some (exn_message error)) "Health check failed";
              timestamp := Date_at (Date_now rt);
              apiVersion := None;
              accountId := None |}).

Definition getAccountInfo
  : Client (AccountInfoOf string) (AccountInfoOf Date) :=
  response <- HTTPClient.get "/account" [] ;;
  let data := data response in
  ret {| account_accountId := account_accountId data;
         plan := plan data;
         emailAddressLimit := emailAddressLimit data;
         emailAddressUsed := emailAddressUsed data;
         emailsSentThisMonth := emailsSentThisMonth data;
         emailLimitPerMonth := emailLimitPerMonth data;
         account_createdAt := Date_parse rt (account_createdAt data);
         lastActivity := Date_parse rt (lastActivity data) |}.

End WithRuntime.

End InboxSDK.

(** ** The public operations that reach the network *)

Inductive Service : Type := EmailAddresses | Emails | Facade.

Inductive Operation : Type :=
| AddressCreate (options : CreateEmailAddressOptions)
| AddressGet (id : string)
| AddressList (options : option EmailAddressService.ListOptions)
| AddressUpdate (id : string) (updates : AddressUpdates)
| AddressDelete (id : string)
| AddressExtend (id : string) (additionalMinutes : JS.number)
| EmailSend (options : SendEmailOptions)
| EmailGet (id : string)
| EmailList (options : option EmailService.ListOptions)
| EmailCancel (id : string)
| EmailResend (id : string)
| EmailGetDeliveryStatus (id : string)
| HealthCheck
| GetAccountInfo.

Definition service (op : Operation) : Service :=
  match op with
  | AddressCreate _ | AddressGet _ | AddressList _ | AddressUpdate _ _
  | AddressDelete _ | AddressExtend _ _ => EmailAddresses
  | EmailSend _ | EmailGet _ | EmailList _ | EmailCancel _ | EmailResend _
  | EmailGetDeliveryStatus _ => Emails
  | HealthCheck | GetAccountInfo => Facade
  end.

(** The payload type of the endpoint an operation calls. *)
Definition payload (op : Operation) : Type :=
  match op with
  | AddressCreate _ | AddressGet _ | AddressUpdate _ _ | AddressExtend _ _ =>
      EmailAddressOf string
  | AddressList _ => PaginatedResponse (EmailAddressOf string)
  | AddressDelete _ | EmailCancel _ => json
  | EmailSend _ | EmailGet _ | EmailResend _ => SentEmailOf string
  | EmailList _ => PaginatedResponse (SentEmailOf string)
  | EmailGetDeliveryStatus _ => EmailService.DeliveryStatusOf string
  | HealthCheck => InboxSDK.Payload
  | GetAccountInfo => InboxSDK.AccountInfoOf string
  end.

(** What an operation resolves to. *)
Definition result (op : Operation) : Type :=
  match op with
  | AddressCreate _ | AddressGet _ | AddressUpdate _ _ | AddressExtend _ _ =>
      EmailAddress
  | AddressList _ => PaginatedResponse EmailAddress
  | AddressDelete _ | EmailCancel _ => unit
  | EmailSend _ | EmailGet _ | EmailResend _ => SentEmail
  | EmailList _ => PaginatedResponse SentEmail
  | EmailGetDeliveryStatus _ => EmailService.DeliveryStatusOf Date
  | HealthCheck => InboxSDK.Health
  | GetAccountInfo => InboxSDK.AccountInfoOf Date
  end.

Definition run (rt : Runtime) (op : Operation)
  : Client (payload op) (result op) :=
  match op with
  | AddressCreate options => EmailAddressService.create rt options
  | AddressGet id => EmailAddressService.get rt id
  | AddressList options => EmailAddressService.list rt options
  | AddressUpdate id updates => EmailAddressService.update rt id updates
  | AddressDelete id => EmailAddressService.delete id
  | AddressExtend id minutes => EmailAddressService.extend rt id minutes
  | EmailSend options => EmailService.send rt options
  | EmailGet id => EmailService.get rt id
  | EmailList options => EmailService.list rt options
  | EmailCancel id => EmailService.cancel id
  | EmailResend id => EmailService.resend rt id
  | EmailGetDeliveryStatus id => EmailService.getDeliveryStatus rt id
  | HealthCheck => InboxSDK.healthCheck rt
  | GetAccountInfo => InboxSDK.getAccountInfo rt
  end.

(** The wrapper a service puts around a failed envelope. *)
Definition wrapper (s : Service) (message : string) : option MaylError :=
  match s with
  | EmailAddresses => Some (EmailAddressError message None)
  | Emails => Some (EmailSendError message None)
  | Facade => None
  end.

(** The fallback message of an operation of the two services. *)
Definition fallback (op : Operation) : string :=
  match op with
  | AddressCreate _ => "Failed to create email address"
  | AddressGet _ => "Failed to get email address"
  | AddressList _ => "Failed to list email addresses"
  | AddressUpdate _ _ => "Failed to update email address"
  | AddressDelete _ => "Failed to delete email address"
  | AddressExtend _ _ => "Failed to extend email address"
  | EmailSend _ => "Failed to send email"
  | EmailGet _ => "Failed to get email"
  | EmailList _ => "Failed to list emails"
  | EmailCancel _ => "Failed to cancel email"
  | EmailResend _ => "Failed to resend email"
  | EmailGetDeliveryStatus _ => "Failed to get delivery status"
  | HealthCheck | GetAccountInfo => ""
  end.

(** ** Configuration: the state the adapter and the facade hold *)

(** An optional property [p?: T] of an object: the key is missing, or
    it is there with the value [undefined], or it is there with a value. *)
Inductive Optional (T : Type) : Type :=
| Absent
| Undefined
| Given (v : T).
Arguments Absent {T}.
Arguments Undefined {T}.
Arguments Given {T}.

(** [InboxSDKConfig] (the [MaylConfig] of http-client.ts). *)
Record InboxSDKConfig : Type := mkInboxSDKConfig
  { apiKey : string;
    baseUrl : Optional string;
    timeout : Optional JS.number }.

(** [this.config], declared [Required<MaylConfig>]: the defaults with the
    configuration spread over them.  A key of the configuration that is
    there with the value [undefined] replaces the default by [undefined]
    ([None]). *)
Record RequiredConfig : Type := mkRequiredConfig
  { required_apiKey : string;
    required_baseUrl : option string;
    required_timeout : option JS.number }.

(** The state of an [HTTPClient]: [this.config] and the defaults of the
    axios instance [this.client] that the SDK sets (its [baseURL], its
    [timeout] and the headers given to [axios.create]). *)
Record HTTPClientState : Type := mkHTTPClientState
  { this_config : RequiredConfig;
    defaults_baseURL : option string;
    defaults_timeout : JS.number;
    defaults_headers : gmap string string }.

(** One key of [{ key: fallback, ...config }]. *)
Definition spread {T} (fallback : T) (o : Optional T) : option T :=
  match o with
  | Absent => Some fallback
  | Undefined => None
  | Given v => Some v
  end.

Module HTTPClientConfig.

(** [constructor(config)]: [{ baseUrl: ..., timeout: 30000, ...config }],
    then [axios.create].  Given [timeout: undefined], axios keeps the
    timeout of its own defaults, [0]; it has no [baseURL] of its own. *)
Definition constructor (config : InboxSDKConfig) : HTTPClientState :=
  let this_config :=
    {| required_apiKey := apiKey config;
       required_baseUrl := spread "http://api.mayl.ng:8080" (baseUrl config);
       required_timeout := spread (JS.of_Z 30000) (timeout config) |} in
  {| this_config := this_config;
     defaults_baseURL := required_baseUrl this_config;
     defaults_timeout := default (JS.of_Z 0) (required_timeout this_config);
     defaults_headers :=
       {[ "Authorization" := "Bearer " +:+ required_apiKey this_config;
          "Content-Type" := "application/json";
          "User-Agent" := "maylng/0.1.0" ]} |}.

Definition updateApiKey (apiKey : string) (this : HTTPClientState)
  : HTTPClientState :=
  {| this_config :=
       {| required_apiKey := apiKey;
          required_baseUrl := required_baseUrl (this_config this);
          required_timeout := required_timeout (this_config this) |};
     defaults_baseURL := defaults_baseURL this;
     defaults_timeout := defaults_timeout this;
     defaults_headers :=
       <[ "Authorization" := "Bearer " +:+ apiKey ]> (defaults_headers this) |}.

Definition updateBaseUrl (baseUrl : string) (this : HTTPClientState)
  : HTTPClientState :=
  {| this_config :=
       {| required_apiKey := required_apiKey (this_config this);
          required_baseUrl := Some baseUrl;
          required_timeout := required_timeout (this_config this) |};
     defaults_baseURL := Some baseUrl;
     defaults_timeout := defaults_timeout this;
     defaults_headers := defaults_headers this |}.

End HTTPClientConfig.

(** The facade's constructor and its two update methods.  The facade
    holds one [HTTPClient], shared with the two services; a method that
    throws leaves it as it was. *)
Module Facade.

Definition validateConfig (config : InboxSDKConfig) : Completion unit :=
  throw_if (negb (JS.truthy_string (apiKey config)))
    "API key is required and must be a string"
  >> match timeout config with
     | Given t => throw_if (JS.le_zero t) "Timeout must be a positive number"
     | Absent | Undefined => Return tt
     end.

(** [new InboxSDK(config)] *)
Definition constructor (config : InboxSDKConfig) : Completion HTTPClientState :=
  match validateConfig config with
  | Return _ => Return (HTTPClientConfig.constructor config)
  | Throw e => Throw e
  end.

(** A method of the facade: how the call completes and the state it
    leaves. *)
Definition updateApiKey (apiKey : string) (this : HTTPClientState)
  : Completion unit * HTTPClientState :=
  match throw_if (negb (JS.truthy_string apiKey))
          "API key is required and must be a string" with
  | Return _ => (Return tt, HTTPClientConfig.updateApiKey apiKey this)
  | Throw e => (Throw e, this)
  end.

Definition updateBaseUrl (baseUrl : string) (this : HTTPClientState)
  : Completion unit * HTTPClientState :=
  match throw_if (negb (JS.truthy_string baseUrl))
          "Base URL is required and must be a string" with
  | Return _ => (Return tt, HTTPClientConfig.updateBaseUrl baseUrl this)
  | Throw e => (Throw e, this)
  end.

(** A call of one of the two update methods. *)
Inductive Update : Type :=
| UpdateApiKey (apiKey : string)
| UpdateBaseUrl (baseUrl : string).

Definition call (u : Update) (this : HTTPClientState)
  : Completion unit * HTTPClientState :=
  match u with
  | UpdateApiKey k => updateApiKey k this
  | UpdateBaseUrl b => updateBaseUrl b this
  end.

(** The state after a sequence of calls, whether they threw or not. *)
Definition after (calls : list Update) (this : HTTPClientState)
  : HTTPClientState :=
  fold_left (fun state u => snd (call u state)) calls this.

End Facade.

(** * The vocabulary of the statements *)

(** The strings a pattern denotes. *)
Inductive matches : JS.regex -> string -> Prop :=
| matches_Eps : matches JS.Eps ""
| matches_Class p c : p c = true -> matches (JS.Class p) (String c "")
| matches_Cat r1 r2 s1 s2 :
    matches r1 s1 -> matches r2 s2 -> matches (JS.Cat r1 r2) (s1 +:+ s2)
| matches_Alt_l r1 r2 s : matches r1 s -> matches (JS.Alt r1 r2) s
| matches_Alt_r r1 r2 s : matches r2 s -> matches (JS.Alt r1 r2) s
| matches_Plus_one r s : matches r s -> matches (JS.Plus r) s
| matches_Plus_more r s1 s2 :
    matches r s1 -> matches (JS.Plus r) s2 -> matches (JS.Plus r) (s1 +:+ s2).

(** Every code unit of [s] satisfies [p]. *)
Fixpoint every (p : ascii -> bool) (s : string) : bool :=
  match s with
  | EmptyString => true
  | String c s' => p c && every p s'
  end.

(** The shape of an address the pattern accepts. *)
Definition addressPart (s : string) : Prop :=
  s <> "" /\ every EmailService.addressChar s = true.

(** A validation step either returns or throws a ValidationError that
    names no field and no request. *)
Definition validation (c : Completion unit) : Prop :=
  c = Return tt \/ exists message, c = Throw (Mayl (ValidationError message None None)).

(** A validation step that throws. *)
Definition rejects (c : Completion unit) : Prop :=
  exists message, c = Throw (Mayl (ValidationError message None None)).

(** The address of a recipient matches the pattern. *)
Definition valid (r : EmailRecipient) : Prop :=
  JS.test EmailService.emailRegex (email r) = true.

Definition invalid (r : EmailRecipient) : Prop :=
  JS.test EmailService.emailRegex (email r) = false.

(** The message of the error [validateEmailRecipient] throws for an
    address that fails the pattern. *)
Definition recipientMessage (field : string) (r : EmailRecipient) : string :=
  if JS.truthy_string (email r)
  then field +:+ ".email is not a valid email address"
  else field +:+ ".email is required".

(** The checks of [validateSendOptions] that come before the check of the
    content pass. *)
Definition wellAddressed (options : SendEmailOptions) : Prop :=
  fromEmailId options <> "" /\
  to options <> [] /\
  Forall valid (to options) /\
  (forall l, cc options = Some l -> Forall valid l) /\
  (forall l, bcc options = Some l -> Forall valid l) /\
  JS.isBlank (subject options) = false.

(** The attachment has a file name, a content type and a content: the
    three things [validateEmailAttachment] asks for (an empty [Buffer] is a
    content, an empty string is not). *)
Definition validAttachment (a : EmailAttachment) : Prop :=
  filename a <> "" /\ contentType a <> "" /\ content a <> Text "".

(** The message of the error [validateEmailAttachment] throws for an
    attachment that is not valid. *)
Definition attachmentMessage (field : string) (a : EmailAttachment) : string :=
  if negb (JS.truthy_string (filename a)) then field +:+ ".filename is required"
  else if negb (JS.truthy_string (contentType a))
       then field +:+ ".contentType is required"
       else field +:+ ".content is required".

(** What [validateSendOptions] accepts when the clock reads [now]: a
    sender, recipients and a subject in order, a text or an HTML body,
    valid attachments, and a schedule that is absent, an invalid date, or
    strictly after [now]. *)
Definition accepted (now : Z) (options : SendEmailOptions) : Prop :=
  wellAddressed options /\
  (JS.truthy (text options) = true \/ JS.truthy (html options) = true) /\
  (forall l, attachments options = Some l -> Forall validAttachment l) /\
  (forall d, scheduledAt options = Some d ->
             d = Invalid_Date \/ exists t, d = Date_at t /\ now < t).

(** A letter with two attachments, the second with an empty content. *)
Module Attachments.

Definition report : EmailAttachment :=
  {| filename := "report.pdf"; contentType := "application/pdf";
     content := Buffer []; cid := None |}.

Definition blank : EmailAttachment :=
  {| filename := "notes.txt"; contentType := "text/plain";
     content := Text ""; cid := None |}.

Definition letter : SendEmailOptions :=
  {| fromEmailId := "addr_1";
     to := [{| email := "alice@example.com"; name := None |}];
     cc := None;
     bcc := None;
     subject := "Report";
     text := Some "See attached";
     html := None;
     attachments := Some [report; blank];
     headers := None;
     scheduledAt := None;
     threadId := None;
     send_metadata := None |}.

End Attachments.

(** What holds of the state of the client, once constructed, whatever
    updates are called: the key is not empty, the [Authorization] header is
    the bearer form of the key, the base URL of axios is the configured
    one, and the timeout and the two other headers are the constructed
    ones. *)
Definition consistent (config : InboxSDKConfig) (state : HTTPClientState) : Prop :=
  required_apiKey (this_config state) <> "" /\
  defaults_headers state !! "Authorization"
  = Some ("Bearer " +:+ required_apiKey (this_config state)) /\
  defaults_baseURL state = required_baseUrl (this_config state) /\
  required_timeout (this_config state) = spread (JS.of_Z 30000) (timeout config) /\
  defaults_timeout state
  = default (JS.of_Z 0) (spread (JS.of_Z 30000) (timeout config)) /\
  defaults_headers state !! "Content-Type" = Some "application/json" /\
  defaults_headers state !! "User-Agent" = Some "maylng/0.1.0".

(** What an operation can throw before the network. *)
Definition pre_network (e : Exn) : Prop :=
  (exists message, e = Mayl (ValidationError message None None))
  \/ e = RangeError "Invalid time value".

(** A letter whose subject is a space, a tab and a no-break space, and an
    email as the server reports it. *)
Module Letters.

Definition blank_subject : SendEmailOptions :=
  {| fromEmailId := "addr_1";
     to := [{| email := "alice@example.com"; name := None |}];
     cc := None;
     bcc := None;
     subject := String " " (String (ascii_of_nat 9) (String (ascii_of_nat 160) ""));
     text := Some "Hello";
     html := None;
     attachments := None;
     headers := None;
     scheduledAt := None;
     threadId := None;
     send_metadata := None |}.

Definition delivered_email : SentEmailOf string :=
  {| sent_id := "email_1";
     sent_fromEmailId := "addr_1";
     sent_to := [{| email := "alice@example.com"; name := None |}];
     sent_cc := None;
     sent_bcc := None;
     sent_subject := "Hello";
     sentAt := "2025-01-01T00:00:00Z";
     sent_status := delivered;
     sent_threadId := None;
     sent_metadata := None |}.

Definition one_page : PaginatedResponse (SentEmailOf string) :=
  mkPaginatedResponse [delivered_email] (JS.of_Z 1) (JS.of_Z 20) (JS.of_Z 1)
    (JS.of_Z 1) false false.

(** The emails of one address since the first day of 2025. *)
Definition recent : EmailService.ListOptions :=
  {| EmailService.list_fromEmailId := Some "addr_1";
     EmailService.list_status := None;
     EmailService.list_threadId := None;
     EmailService.since := Some (Date_at 1735689600000);
     EmailService.until := None;
     EmailService.list_pagination := None |}.

End Letters.

(** The request of the health check. *)
Definition healthRequest : Request := mkRequest GET "/health" [] None.

(** ** Concrete inputs *)

Module Examples.

(** A 429 response with the header [retry-after: 42]. *)
Definition response429 : AxiosResponse :=
  {| status := 429;
     resp_data := Some {| body_error := Some "Too many requests" |};
     resp_headers := Some {[ "retry-after" := "42" ]} |}.

Definition error429 : AxiosError :=
  {| code := Some "ERR_BAD_REQUEST";
     message := "Request failed with status code 429";
     config := Some {| config_headers :=
                         Some {[ "X-Request-ID" := "req_1_abc" ]} |};
     response := Some response429 |}.

(** What axios reports when the configured timeout elapses. *)
Definition timeoutError : AxiosError :=
  {| code := Some "ECONNABORTED";
     message := "timeout of 30000ms exceeded";
     config := None;
     response := None |}.

(** A refused connection. *)
Definition refusedError : AxiosError :=
  {| code := Some "ECONNREFUSED";
     message := "connect ECONNREFUSED 127.0.0.1:8080";
     config := None;
     response := None |}.

End Examples.

Module Runs.

(** 2025-01-01T00:00:00Z on the clock; the parser is not exercised. *)
Definition rt : Runtime :=
  {| Date_now := 1735689600000; Date_parse := fun _ => Invalid_Date |}.

(** A network on which every connection is refused. *)
Definition offline {T} : Axios T := fun _ => inl Examples.refusedError.

(** A network that answers every request with the same envelope. *)
Definition answering {T} (envelope : APIResponse T) : Axios T :=
  fun _ => inr envelope.

Definition alice : EmailRecipient :=
  {| email := "alice@example.com"; name := Some "Alice" |}.

Definition bob : EmailRecipient :=
  {| email := "bob@example.org"; name := None |}.

(** No dot after the [@]. *)
Definition mallory : EmailRecipient :=
  {| email := "mallory@localhost"; name := None |}.

Definition letter : SendEmailOptions :=
  {| fromEmailId := "addr_1";
     to := [alice; bob];
     cc := None;
     bcc := None;
     subject := "Hello";
     text := Some "Hello from the agent";
     html := None;
     attachments := None;
     headers := None;
     scheduledAt := None;
     threadId := None;
     send_metadata := None |}.

Definition with_to (l : list EmailRecipient) (o : SendEmailOptions)
  : SendEmailOptions :=
  {| fromEmailId := fromEmailId o; to := l; cc := cc o; bcc := bcc o;
     subject := subject o; text := text o; html := html o;
     attachments := attachments o; headers := headers o;
     scheduledAt := scheduledAt o; threadId := threadId o;
     send_metadata := send_metadata o |}.

Definition with_from (id : string) (o : SendEmailOptions) : SendEmailOptions :=
  {| fromEmailId := id; to := to o; cc := cc o; bcc := bcc o;
     subject := subject o; text := text o; html := html o;
     attachments := attachments o; headers := headers o;
     scheduledAt := scheduledAt o; threadId := threadId o;
     send_metadata := send_metadata o |}.

Definition without_content (o : SendEmailOptions) : SendEmailOptions :=
  {| fromEmailId := fromEmailId o; to := to o; cc := cc o; bcc := bcc o;
     subject := subject o; text := None; html := None;
     attachments := attachments o; headers := headers o;
     scheduledAt := scheduledAt o; threadId := threadId o;
     send_metadata := send_metadata o |}.

Definition scheduled_at (d : Date) (o : SendEmailOptions) : SendEmailOptions :=
  {| fromEmailId := fromEmailId o; to := to o; cc := cc o; bcc := bcc o;
     subject := subject o; text := text o; html := html o;
     attachments := attachments o; headers := headers o;
     scheduledAt := Some d; threadId := threadId o;
     send_metadata := send_metadata o |}.

Definition account : InboxSDK.AccountInfoOf string :=
  {| InboxSDK.account_accountId := "acct_1";
     InboxSDK.plan := "free";
     InboxSDK.emailAddressLimit := JS.of_Z 10;
     InboxSDK.emailAddressUsed := JS.of_Z 10;
     InboxSDK.emailsSentThisMonth := JS.of_Z 0;
     InboxSDK.emailLimitPerMonth := JS.of_Z 100;
     InboxSDK.account_createdAt := "2025-01-01T00:00:00Z";
     InboxSDK.lastActivity := "2025-01-01T00:00:00Z" |}.

Definition health : InboxSDK.HealthData :=
  {| InboxSDK.health_status := "degraded";
     InboxSDK.health_message := "";
     InboxSDK.health_apiVersion := "1";
     InboxSDK.health_accountId := "acct_1" |}.

(** An envelope with [success = false]. *)
Definition failing {T} (d : T) : APIResponse T :=
  {| data := d; success := false; error := Some "Account suspended";
     envelope_requestId := None |}.

Definition address : EmailAddressOf string :=
  {| address_id := "addr_1";
     email_address := "agent@mayl.ng";
     address_type := temporary;
     createdAt := "2025-01-01T00:00:00Z";
     expiresAt := Some "2025-01-01T00:30:00Z";
     address_status := active;
     address_metadata := None |}.

End Runs.

(** * Properties *)

(** ** The built-ins: patterns and substrings *)

Lemma append_empty s1 s2 : s1 +:+ s2 = "" -> s1 = "" /\ s2 = "".
Proof. destruct s1; cbn; [auto | discriminate]. Qed.

Lemma nullable_matches r : JS.nullable r = true <-> matches r "".
Proof.
  split.
  - induction r; cbn; intros N; try discriminate.
    + constructor.
    + apply andb_true_iff in N as [N1 N2].
      change "" with ("" +:+ ""). constructor; auto.
    + apply orb_true_iff in N as [N | N];
        [apply matches_Alt_l | apply matches_Alt_r]; auto.
    + apply matches_Plus_one. auto.
  - intros M. remember "" as s eqn:E.
    induction M; cbn; try discriminate; auto.
    + apply append_empty in E as [-> ->].
      rewrite IHM1, IHM2; auto.
    + rewrite IHM; auto.
    + rewrite IHM, orb_true_r; auto.
    + apply append_empty in E as [-> ->]. auto.
Qed.

Lemma deriv_sound c r : forall s, matches (JS.deriv c r) s -> matches r (String c s).
Proof.
  induction r; cbn; intros s M.
  - inversion M.
  - inversion M.
  - destruct (p c) eqn:P; inversion M; subst. now constructor.
  - destruct (JS.nullable r1) eqn:N.
    + inversion M as [| | | ? ? ? M' | ? ? ? M' | |]; subst.
      * inversion M' as [| | ? ? s1 s2 M1 M2 | | | |]; subst.
        change (String c (s1 +:+ s2)) with (String c s1 +:+ s2).
        constructor; auto.
      * change (String c s) with ("" +:+ String c s).
        constructor; auto. now apply nullable_matches.
    + inversion M as [| | ? ? s1 s2 M1 M2 | | | |]; subst.
      change (String c (s1 +:+ s2)) with (String c s1 +:+ s2).
      constructor; auto.
  - inversion M; subst; [apply matches_Alt_l | apply matches_Alt_r]; auto.
  - inversion M as [| | | ? ? ? M' | ? ? ? M' | |]; subst.
    + apply matches_Plus_one. auto.
    + inversion M' as [| | ? ? s1 s2 M1 M2 | | | |]; subst.
      change (String c (s1 +:+ s2)) with (String c s1 +:+ s2).
      apply matches_Plus_more; auto.
Qed.

Lemma deriv_complete r w :
  matches r w -> forall c s, w = String c s -> matches (JS.deriv c r) s.
Proof.
  induction 1 as [| p a P | r1 r2 s1 s2 M1 IH1 M2 IH2 | r1 r2 w M IH
                 | r1 r2 w M IH | r w M IH | r s1 s2 M1 IH1 M2 IH2];
    intros c s E; cbn.
  - discriminate.
  - injection E as -> <-. rewrite P. constructor.
  - destruct s1 as [| a s1'].
    + cbn in E. apply nullable_matches in M1. rewrite M1.
      apply matches_Alt_r. auto.
    + cbn in E. injection E as -> <-.
      destruct (JS.nullable r1);
        [apply matches_Alt_l |]; constructor; auto.
  - apply matches_Alt_l. auto.
  - apply matches_Alt_r. auto.
  - apply matches_Alt_l. auto.
  - destruct s1 as [| a s1'].
    + cbn in E. exact (IH2 c s E).
    + cbn in E. injection E as -> <-.
      apply matches_Alt_r. constructor; auto.
Qed.

Theorem test_matches s : forall r, JS.test r s = true <-> matches r s.
Proof.
  induction s as [| c s IH]; intros r; cbn.
  - apply nullable_matches.
  - rewrite IH. split.
    + apply deriv_sound.
    + intros M. now apply deriv_complete with (String c s).
Qed.

Lemma matches_Plus_Class p s :
  matches (JS.Plus (JS.Class p)) s <-> s <> "" /\ every p s = true.
Proof.
  split.
  - intros M. remember (JS.Plus (JS.Class p)) as r eqn:E.
    induction M; try discriminate; injection E as ->.
    + inversion M; subst. cbn. split; [discriminate |]. now rewrite H0.
    + inversion M1; subst.
      change (String c "" +:+ s2) with (String c s2). cbn.
      split; [discriminate |].
      destruct (IHM2 eq_refl) as [_ ->]. now rewrite H0.
  - induction s as [| c s IH]; intros [N Ev]; [congruence |].
    cbn in Ev. apply andb_true_iff in Ev as [Pc Ev].
    destruct s as [| c' s'].
    + apply matches_Plus_one. now constructor.
    + change (String c (String c' s')) with (String c "" +:+ String c' s').
      apply matches_Plus_more; [now constructor |].
      apply IH. split; [discriminate | exact Ev].
Qed.

(** X24.  The pattern of [validateEmailRecipient] accepts exactly the
    strings [local@domain.tld] whose three parts are non-empty and contain
    neither white space nor [@] (the last dot of such a string can serve as
    the separator, so [domain] and [tld] may contain dots themselves). *)
Theorem emailRegex_shape s :
  JS.test EmailService.emailRegex s = true
  <-> exists local domain tld,
        s = local +:+ "@" +:+ domain +:+ "." +:+ tld
        /\ addressPart local /\ addressPart domain /\ addressPart tld.
Proof.
  rewrite test_matches. unfold EmailService.emailRegex. split.
  - intros M.
    inversion M as [| | ? ? local s1 Ml M1 | | | |]; subst.
    inversion M1 as [| | ? ? at_ s2 Ma M2 | | | |]; subst.
    inversion M2 as [| | ? ? domain s3 Md M3 | | | |]; subst.
    inversion M3 as [| | ? ? dot tld Mdot Mt | | | |]; subst.
    inversion Ma as [| ? a Pa | | | | |]; subst.
    inversion Mdot as [| ? d Pd | | | | |]; subst.
    apply Ascii.eqb_eq in Pa, Pd. subst a d.
    exists local, domain, tld. split; [reflexivity |]. unfold addressPart.
    split; [| split]; now apply matches_Plus_Class.
  - unfold addressPart. intros (local & domain & tld & -> & Pl & Pd & Pt).
    constructor; [now apply matches_Plus_Class |].
    change ("@" +:+ domain +:+ "." +:+ tld)
      with (String "@" "" +:+ (domain +:+ String "." "" +:+ tld)).
    constructor; [now constructor |].
    constructor; [now apply matches_Plus_Class |].
    constructor; [now constructor | now apply matches_Plus_Class].
Qed.

Lemma append_String c s t : String c s +:+ t = String c (s +:+ t).
Proof. reflexivity. Qed.

Lemma append_nil t : "" +:+ t = t.
Proof. reflexivity. Qed.

Lemma prefix_spec pat s :
  String.prefix pat s = true <-> exists b, s = pat +:+ b.
Proof.
  revert pat. induction s as [| c s IH]; intros [| a pat]; cbn.
  - split; [intros _; now exists "" | reflexivity].
  - split; [discriminate | intros [b E]; discriminate E].
  - split; [intros _; now exists (String c s) | reflexivity].
  - destruct (ascii_dec a c) as [-> | N].
    + rewrite IH.
      split; intros [b E]; exists b; rewrite append_String in *; congruence.
    + split; [discriminate |].
      intros [b E]. rewrite append_String in E. congruence.
Qed.

Theorem includes_spec s pat :
  JS.includes s pat = true <-> exists a b, s = a +:+ pat +:+ b.
Proof.
  induction s as [| c s IH]; cbn [JS.includes].
  - rewrite orb_false_r, prefix_spec. split.
    + intros [b E]. now exists "", b.
    + intros (a & b & E). destruct a; [now exists b | discriminate].
  - rewrite orb_true_iff, IH, prefix_spec. split.
    + intros [[b E] | (a & b & E)].
      * now exists "", b.
      * exists (String c a), b. now rewrite append_String, E.
    + intros (a & b & E). destruct a as [| c' a].
      * left. now exists b.
      * right. rewrite append_String in E. injection E as -> E.
        now exists a, b.
Qed.

(** The built-ins on a few inputs. *)
Example parseInt_42 : JS.parseInt "42" = JS.of_Z 42.
Proof. reflexivity. Qed.

Example parseInt_leading_space_and_sign : JS.parseInt "  -17s" = JS.of_Z (-17).
Proof. reflexivity. Qed.

Example parseInt_hex : JS.parseInt "0x1f" = JS.of_Z 31.
Proof. reflexivity. Qed.

Example parseInt_http_date : JS.parseInt "Wed, 21 Oct 2015 07:28:00 GMT" = JS.NaN.
Proof. reflexivity. Qed.

Example emailRegex_accepts : JS.test EmailService.emailRegex "user@example.com" = true.
Proof. reflexivity. Qed.

Example emailRegex_rejects_space :
  JS.test EmailService.emailRegex "us er@example.com" = false.
Proof. reflexivity. Qed.

Example emailRegex_rejects_two_ats :
  JS.test EmailService.emailRegex "a@b@example.com" = false.
Proof. reflexivity. Qed.

Example emailRegex_rejects_empty : JS.test EmailService.emailRegex "" = false.
Proof. reflexivity. Qed.

(** ** The transport adapter *)

Section HandleAPIError.

Variable error : AxiosError.
Variable r : AxiosResponse.
Hypothesis received : response error = Some r.

Lemma handleAPIError_401 :
  status r = 401 ->
  handleAPIError error
  = AuthenticationError (errorMessage error r) (requestIdOf error).
Proof. intros E. unfold handleAPIError. now rewrite received, E. Qed.

Lemma handleAPIError_403 :
  status r = 403 ->
  handleAPIError error
  = AuthorizationError (errorMessage error r) (requestIdOf error).
Proof. intros E. unfold handleAPIError. now rewrite received, E. Qed.

Lemma handleAPIError_404 :
  status r = 404 ->
  handleAPIError error = NotFoundError "Resource" None (requestIdOf error).
Proof. intros E. unfold handleAPIError. now rewrite received, E. Qed.

Lemma handleAPIError_400 :
  status r = 400 ->
  handleAPIError error
  = ValidationError (errorMessage error r) None (requestIdOf error).
Proof. intros E. unfold handleAPIError. now rewrite received, E. Qed.

Lemma handleAPIError_429 :
  status r = 429 ->
  handleAPIError error
  = RateLimitError (errorMessage error r)
      (match retryAfterHeader r with
       | Some h => if JS.truthy_string h then Some (JS.parseInt h) else None
       | None => None
       end)
      (requestIdOf error).
Proof. intros E. unfold handleAPIError. now rewrite received, E. Qed.

Lemma handleAPIError_5xx :
  status r = 500 \/ status r = 502 \/ status r = 503 \/ status r = 504 ->
  handleAPIError error
  = ServerError (errorMessage error r) (status r) (requestIdOf error).
Proof.
  intros E. unfold handleAPIError. rewrite received.
  destruct E as [E | [E | [E | E]]]; now rewrite E.
Qed.

Lemma handleAPIError_other :
  ~ In (status r) [400; 401; 403; 404; 429; 500; 502; 503; 504] ->
  handleAPIError error
  = ServerError
      ("HTTP " +:+ status_toString (status r) +:+ ": " +:+ errorMessage error r)
      (status r) (requestIdOf error).
Proof.
  intros E. unfold handleAPIError. rewrite received.
  set (m := errorMessage error r).
  destruct (status r) as [|p|p] eqn:S; try reflexivity.
  repeat (destruct p as [p|p|]; try reflexivity);
    exfalso; apply E; cbn; tauto.
Qed.

End HandleAPIError.



(** C2.  A failure with no response becomes a TimeoutError when it carries
    a timeout indicator (the code [ECONNABORTED], or a message that
    contains [timeout]) and a NetworkError otherwise; a request that axios
    fails with such an indicator is rejected by the adapter with the
    TimeoutError, never with a NetworkError. *)
Theorem handleAPIError_no_response (error : AxiosError) :
  response error = None ->
  (code error = Some "ECONNABORTED"
   \/ JS.includes (message error) "timeout" = true ->
     handleAPIError error = TimeoutError "Request timeout" (requestIdOf error)
     /\ Err.name (handleAPIError error) <> "NetworkError"
     /\ forall T m endpoint q b (axios : Axios T),
          axios (mkRequest m endpoint q b) = inl error ->
          completion (HTTPClient.request m endpoint q b axios)
          = Throw (Mayl (TimeoutError "Request timeout" (requestIdOf error)))) /\
  (code error <> Some "ECONNABORTED"
   /\ JS.includes (message error) "timeout" = false ->
     handleAPIError error
     = NetworkError ("Network error: " +:+ message error) (requestIdOf error)).
Proof.
  intros H. unfold handleAPIError, timeoutIndicator. rewrite H. split.
  - intros I.
    assert (E : bool_decide (code error = Some "ECONNABORTED")
                || JS.includes (message error) "timeout" = true).
    { destruct I as [I | I].
      - now rewrite (bool_decide_eq_true_2 _ I).
      - rewrite I. apply orb_true_r. }
    rewrite E. repeat split.
    + discriminate.
    + intros T m endpoint q b axios A. unfold HTTPClient.request.
      rewrite A. cbn. unfold handleAPIError, timeoutIndicator.
      now rewrite H, E.
  - intros [C I]. now rewrite (bool_decide_eq_false_2 _ C), I.
Qed.


(** C2 on the failure axios reports for an elapsed timeout. *)
Lemma handleAPIError_no_response_witness :
  response Examples.timeoutError = None /\
  handleAPIError Examples.timeoutError = TimeoutError "Request timeout" None.
Proof.
  split; [reflexivity |].
  destruct (handleAPIError_no_response Examples.timeoutError eq_refl)
    as [Htimeout _].
  destruct Htimeout as (E & _ & _); [left; reflexivity | exact E].
Defined.

Example handleAPIError_refused :
  handleAPIError Examples.refusedError
  = NetworkError "Network error: connect ECONNREFUSED 127.0.0.1:8080" None.
Proof. reflexivity. Qed.

(** ** Equations of the client monad *)

Lemma lift_bind {T A B} (v : Completion A) (k : A -> Client T B) axios :
  bind (lift v) k axios
  = match v with
    | Return a => k a axios
    | Throw e => mkOutcome (Throw e) []
    end.
Proof.
  unfold bind, lift. destruct v as [a | e]; cbn; [| reflexivity].
  now destruct (k a axios).
Qed.

Lemma request_bind {T B} m endpoint q b (k : APIResponse T -> Client T B) axios :
  bind (HTTPClient.request m endpoint q b) k axios
  = let req := mkRequest m endpoint q b in
    match axios req with
    | inl error => mkOutcome (Throw (Mayl (handleAPIError error))) [req]
    | inr envelope =>
        mkOutcome (completion (k envelope axios))
          (req :: requests (k envelope axios))
    end.
Proof.
  unfold bind, HTTPClient.request. cbn.
  now destruct (axios (mkRequest m endpoint q b)).
Qed.

Lemma address_unwrap {T A} (response : APIResponse T) fallback (parse : T -> A) axios :
  EmailAddressService.unwrap response fallback parse axios
  = mkOutcome
      (if success response
       then Return (parse (data response))
       else Throw (Mayl (EmailAddressError
                           (JS.or_else (error response) fallback) None)))
      [].
Proof. unfold EmailAddressService.unwrap. now destruct (success response). Qed.

Lemma email_unwrap {T A} (response : APIResponse T) fallback (parse : T -> A) axios :
  EmailService.unwrap response fallback parse axios
  = mkOutcome
      (if success response
       then Return (parse (data response))
       else Throw (Mayl (EmailSendError
                           (JS.or_else (error response) fallback) None)))
      [].
Proof. unfold EmailService.unwrap. now destruct (success response). Qed.

Create HintDb client discriminated.
Create Rewrite HintDb client_eqs.
#[export] Hint Rewrite @lift_bind @request_bind @address_unwrap @email_unwrap
  : client_eqs.

(** Unfolds an operation down to the monad and rewrites with its
    equations. *)
Ltac step_client :=
  unfold run, EmailAddressService.create, EmailAddressService.get,
    EmailAddressService.list, EmailAddressService.update,
    EmailAddressService.delete, EmailAddressService.extend,
    EmailService.send, EmailService.get, EmailService.list,
    EmailService.cancel, EmailService.resend, EmailService.getDeliveryStatus,
    InboxSDK.getAccountInfo,
    HTTPClient.get, HTTPClient.post, HTTPClient.patch, HTTPClient.delete;
  autorewrite with client_eqs; cbn zeta.

(** Case analysis on the answer of axios to the request in the goal. *)
Ltac by_answer :=
  match goal with
  | |- context [match ?axios ?req with inl _ => _ | inr _ => _ end] =>
      destruct (axios req); cbn; autorewrite with client_eqs; cbn;
      try reflexivity
  end.

Lemma validation_throw_if cond message : validation (throw_if cond message).
Proof. destruct cond; [right; now exists message | now left]. Qed.

Lemma validation_and_then c1 c2 :
  validation c1 -> validation c2 -> validation (c1 >> c2).
Proof.
  intros [-> | [m ->]] H2; cbn; [exact H2 | right; now exists m].
Qed.

Lemma validation_forEach {A} (f : A -> nat -> Completion unit) l :
  (forall x i, validation (f x i)) -> forall i, validation (forEach f l i).
Proof.
  intros Hf. induction l as [| x l IH]; intros i; cbn.
  - now left.
  - apply validation_and_then; auto.
Qed.

Lemma validation_when_present {A} (o : option A) f :
  (forall x, validation (f x)) -> validation (when_present o f).
Proof. destruct o; cbn; [auto | now left]. Qed.

#[export] Hint Resolve validation_throw_if validation_and_then
  validation_forEach validation_when_present : client.

Lemma rejects_throw_if cond message : cond = true -> rejects (throw_if cond message).
Proof. intros ->. now exists message. Qed.

Lemma rejects_and_then_l c1 c2 : rejects c1 -> rejects (c1 >> c2).
Proof. intros [m ->]. now exists m. Qed.

Lemma rejects_and_then_r c1 c2 : validation c1 -> rejects c2 -> rejects (c1 >> c2).
Proof. intros [-> | H1] H2; [exact H2 | now apply rejects_and_then_l]. Qed.

Lemma and_then_Return c : Return tt >> c = c.
Proof. reflexivity. Qed.

Lemma and_then_Throw e c : Throw e >> c = Throw e.
Proof. reflexivity. Qed.

#[export] Hint Resolve rejects_throw_if rejects_and_then_l rejects_and_then_r
  : client.

(** ** Email addresses: [create] and [extend] *)

Lemma validation_validateCreateOptions options :
  validation (EmailAddressService.validateCreateOptions options).
Proof.
  unfold EmailAddressService.validateCreateOptions.
  destruct (expirationMinutes options); auto with client. now left.
Qed.

(** A persistent address with an expiration is rejected before the
    network is reached. *)
Lemma create_persistent_with_expiration rt options axios minutes :
  type options = persistent ->
  expirationMinutes options = Some minutes ->
  requests (EmailAddressService.create rt options axios) = [] /\
  exists message,
    completion (EmailAddressService.create rt options axios)
    = Throw (Mayl (ValidationError message None None)).
Proof.
  intros Ht Hm. step_client.
  assert (R : rejects (EmailAddressService.validateCreateOptions options)).
  { unfold EmailAddressService.validateCreateOptions. rewrite Hm, Ht.
    apply rejects_and_then_r; auto with client. }
  destruct R as [m ->]. split; [reflexivity | now exists m].
Qed.

(** An expiration that is zero or negative is rejected before the network
    is reached. *)
Lemma create_nonpositive_expiration rt options axios minutes :
  expirationMinutes options = Some minutes ->
  JS.le_zero minutes = true ->
  EmailAddressService.create rt options axios
  = mkOutcome
      (Throw (Mayl (ValidationError
                      "Expiration minutes must be a positive number" None None)))
      [].
Proof.
  intros Hm Hle. step_client.
  unfold EmailAddressService.validateCreateOptions. now rewrite Hm, Hle.
Qed.

(** C5, at the input where the code departs from it.  [create] with an
    expiration of [NaN] for a temporary address passes
    [validateCreateOptions] ([typeof NaN] is ['number'] and [NaN <= 0] is
    false), although [NaN] is not a positive number, and the POST is
    issued. *)
Theorem create_NaN_expiration_reaches_network (rt : Runtime)
    (axios : Axios (EmailAddressOf string)) :
  let options :=
    {| type := temporary; prefix := None; domain := None;
       expirationMinutes := Some JS.NaN; create_metadata := None |} in
  JS.gt_zero JS.NaN = false /\
  EmailAddressService.validateCreateOptions options = Return tt /\
  requests (EmailAddressService.create rt options axios)
  = [mkRequest POST "/email-addresses" [] (Some (CreateBody options))].
Proof.
  cbn zeta. repeat split. step_client. cbn. by_answer.
Qed.

(** [!x || x <= 0] holds exactly when [x > 0] does not. *)
Lemma falsy_or_le_zero x :
  negb (JS.truthy_number x) || JS.le_zero x = negb (JS.gt_zero x).
Proof.
  destruct x as [| negative | q]; cbn; try reflexivity.
  - now destruct negative.
  - rewrite !negb_involutive. destruct (Qeq_bool q 0) eqn:E; [| reflexivity].
    apply Qeq_bool_iff in E. cbn. symmetry. apply Qle_bool_iff.
    rewrite E. apply Qle_refl.
Qed.

Lemma le_zero_not_gt_zero x : JS.le_zero x = true -> JS.gt_zero x = false.
Proof.
  destruct x as [| negative | q]; cbn; try congruence.
  - now intros ->.
  - now intros ->.
Qed.

(** C6.  [extend] with [additionalMinutes <= 0] throws a ValidationError
    and makes no request; a request is made only when [additionalMinutes]
    is strictly positive, and then it is the POST to the [extend] endpoint
    of the address. *)
Theorem extend_requires_positive (rt : Runtime) (id : string)
    (additionalMinutes : JS.number) (axios : Axios (EmailAddressOf string)) :
  let o := EmailAddressService.extend rt id additionalMinutes axios in
  (JS.le_zero additionalMinutes = true ->
     requests o = [] /\
     exists message,
       completion o = Throw (Mayl (ValidationError message None None))) /\
  (requests o <> [] -> JS.gt_zero additionalMinutes = true) /\
  (id <> "" -> JS.gt_zero additionalMinutes = true ->
     requests o
     = [mkRequest POST ("/email-addresses/" +:+ id +:+ "/extend") []
          (Some (ExtendBody additionalMinutes))]).
Proof.
  cbn zeta. step_client.
  unfold EmailAddressService.validateId.
  destruct id as [| c id]; cbn.
  - repeat split; try congruence. eauto.
  - rewrite falsy_or_le_zero.
    destruct (JS.gt_zero additionalMinutes) eqn:G; cbn.
    + split; [| split].
      * intros L. apply le_zero_not_gt_zero in L. congruence.
      * reflexivity.
      * intros _ _. by_answer.
    + repeat split; try congruence. eauto.
Qed.

(** ** Emails: the validation of [send] *)

Lemma validateEmailRecipient_valid r field :
  valid r -> EmailService.validateEmailRecipient r field = Return tt.
Proof.
  unfold valid, EmailService.validateEmailRecipient. intros V. rewrite V.
  destruct (email r); [discriminate V | reflexivity].
Qed.

Lemma validateEmailRecipient_invalid r field :
  invalid r ->
  EmailService.validateEmailRecipient r field
  = Throw (Mayl (ValidationError (recipientMessage field r) None None)).
Proof.
  unfold invalid, EmailService.validateEmailRecipient, recipientMessage.
  intros I. rewrite I. now destruct (email r).
Qed.

Lemma valid_or_invalid r : {valid r} + {invalid r}.
Proof.
  unfold valid, invalid.
  destruct (JS.test EmailService.emailRegex (email r)); auto.
Qed.

Lemma validation_validateEmailRecipient r field :
  validation (EmailService.validateEmailRecipient r field).
Proof. unfold EmailService.validateEmailRecipient. auto with client. Qed.

Lemma validation_validateRecipients array l :
  validation (EmailService.validateRecipients array l).
Proof.
  apply validation_forEach. intros. apply validation_validateEmailRecipient.
Qed.

Lemma validation_validateEmailAttachment a field :
  validation (EmailService.validateEmailAttachment a field).
Proof. unfold EmailService.validateEmailAttachment. auto with client. Qed.

#[export] Hint Resolve validation_validateRecipients
  validation_validateEmailAttachment : client.

Lemma forEach_recipients_valid array l i :
  Forall valid l ->
  forEach (fun recipient index =>
             EmailService.validateEmailRecipient recipient
               (EmailService.indexed array index)) l i
  = Return tt.
Proof.
  intros F. revert i. induction F as [| r l V F IH]; intros i; cbn.
  - reflexivity.
  - now rewrite (validateEmailRecipient_valid _ _ V), IH.
Qed.

Lemma forEach_recipients_first_invalid array good r rest i :
  Forall valid good -> invalid r ->
  forEach (fun recipient index =>
             EmailService.validateEmailRecipient recipient
               (EmailService.indexed array index)) (good ++ r :: rest)%list i
  = Throw (Mayl (ValidationError
                   (recipientMessage
                      (EmailService.indexed array (i + length good)%nat) r)
                   None None)).
Proof.
  intros F I. revert i. induction F as [| g good V F IH]; intros i; cbn.
  - rewrite Nat.add_0_r. now rewrite (validateEmailRecipient_invalid _ _ I).
  - rewrite (validateEmailRecipient_valid _ _ V), IH. cbn.
    now rewrite Nat.add_succ_r.
Qed.

Lemma validateRecipients_valid array l :
  Forall valid l -> EmailService.validateRecipients array l = Return tt.
Proof. apply forEach_recipients_valid. Qed.

Lemma validateRecipients_first_invalid array good r rest :
  Forall valid good -> invalid r ->
  EmailService.validateRecipients array (good ++ r :: rest)%list
  = Throw (Mayl (ValidationError
                   (recipientMessage (EmailService.indexed array (length good)) r)
                   None None)).
Proof.
  intros F I. unfold EmailService.validateRecipients.
  now rewrite (forEach_recipients_first_invalid array good r rest 0 F I).
Qed.

(** A list with an invalid recipient has a first one. *)
Lemma first_invalid l :
  Exists invalid l ->
  exists good r rest, l = (good ++ r :: rest)%list /\ Forall valid good /\ invalid r.
Proof.
  induction l as [| x l IH]; intros E.
  - inversion E.
  - destruct (valid_or_invalid x) as [V | I].
    + assert (E' : Exists invalid l).
      { inversion E as [? ? I | ]; subst; [| assumption].
        unfold valid, invalid in *. congruence. }
      destruct (IH E') as (good & r & rest & -> & F & I).
      exists (x :: good), r, rest. repeat split; auto.
    + exists [], x, l. repeat split; auto.
Qed.

Lemma rejects_validateRecipients array l :
  Exists invalid l -> rejects (EmailService.validateRecipients array l).
Proof.
  intros E. destruct (first_invalid l E) as (good & r & rest & -> & F & I).
  rewrite (validateRecipients_first_invalid _ _ _ _ F I). now eexists.
Qed.

Lemma validation_validateSendOptions now options :
  validation (EmailService.validateSendOptions now options).
Proof.
  unfold EmailService.validateSendOptions.
  repeat apply validation_and_then; auto with client.
Qed.

(** When the validation throws, [send] throws the same error and the
    network is not reached. *)
Lemma send_rejected rt options axios message :
  EmailService.validateSendOptions (Date_at (Date_now rt)) options
  = Throw (Mayl (ValidationError message None None)) ->
  EmailService.send rt options axios
  = mkOutcome (Throw (Mayl (ValidationError message None None))) [].
Proof. intros V. step_client. now rewrite V. Qed.

(** The checks before the content, under [wellAddressed]. *)
Lemma wellAddressed_checks now options :
  wellAddressed options ->
  EmailService.validateSendOptions now options
  = throw_if (negb (JS.truthy (text options)) && negb (JS.truthy (html options)))
      "Either text or HTML content is required"
    >> when_present (attachments options)
         (fun l =>
            forEach (fun attachment index =>
                       EmailService.validateEmailAttachment attachment
                         (EmailService.indexed "attachments" index)) l 0)
    >> when_present (scheduledAt options)
         (fun d => throw_if (Date_le d now)
                     "Scheduled time must be in the future").
Proof.
  intros (Hfrom & Hto & Fto & Fcc & Fbcc & Hsubject).
  unfold EmailService.validateSendOptions.
  destruct (fromEmailId options) as [| c s] eqn:E1; [congruence |].
  destruct (to options) as [| r l] eqn:E2; [congruence |].
  cbn [JS.truthy_string negb throw_if and_then].
  rewrite (validateRecipients_valid _ _ Fto).
  assert (Hcc : when_present (cc options) (EmailService.validateRecipients "cc")
                = Return tt).
  { destruct (cc options) as [lc |]; cbn; [| reflexivity].
    now apply validateRecipients_valid, Fcc. }
  assert (Hbcc : when_present (bcc options) (EmailService.validateRecipients "bcc")
                 = Return tt).
  { destruct (bcc options) as [lb |]; cbn; [| reflexivity].
    now apply validateRecipients_valid, Fbcc. }
  rewrite Hcc, Hbcc, Hsubject.
  destruct (subject options); [discriminate Hsubject | reflexivity].
Qed.

(** The message of the error [validateSendOptions] throws, check by
    check in the order of the source, up to the check of the content. *)
Lemma validateSendOptions_message now options m :
  EmailService.validateSendOptions now options
  = Throw (Mayl (ValidationError m None None)) ->
  (fromEmailId options = "" -> m = "From email ID is required") /\
  (fromEmailId options <> "" ->
     (to options = [] -> m = "At least one recipient is required") /\
     (forall good r rest,
        to options = (good ++ r :: rest)%list -> Forall valid good -> invalid r ->
        m = recipientMessage (EmailService.indexed "to" (length good)) r) /\
     (to options <> [] -> Forall valid (to options) ->
        (forall good r rest,
           cc options = Some (good ++ r :: rest)%list ->
           Forall valid good -> invalid r ->
           m = recipientMessage (EmailService.indexed "cc" (length good)) r) /\
        ((forall l, cc options = Some l -> Forall valid l) ->
           (forall good r rest,
              bcc options = Some (good ++ r :: rest)%list ->
              Forall valid good -> invalid r ->
              m = recipientMessage (EmailService.indexed "bcc" (length good)) r) /\
           ((forall l, bcc options = Some l -> Forall valid l) ->
              (JS.isBlank (subject options) = true ->
               m = "Subject is required") /\
              (JS.isBlank (subject options) = false ->
               JS.truthy (text options) = false ->
               JS.truthy (html options) = false ->
               m = "Either text or HTML content is required"))))).
Proof.
  unfold EmailService.validateSendOptions. intros Hm. split.
  - intros E. rewrite E in Hm. cbn in Hm. congruence.
  - intros Hfrom.
    destruct (fromEmailId options) as [| c s] eqn:E1; [congruence |].
    cbn [JS.truthy_string negb throw_if and_then] in Hm.
    split; [| split].
    + intros E. rewrite E in Hm. cbn in Hm. congruence.
    + intros good r rest Hto F I. rewrite Hto in Hm.
      rewrite (validateRecipients_first_invalid _ _ _ _ F I) in Hm.
      destruct good; cbn [app throw_if and_then] in Hm; congruence.
    + intros Hto Fto.
      rewrite (validateRecipients_valid _ _ Fto) in Hm.
      destruct (to options) as [| r0 l0] eqn:E2; [congruence |].
      cbn [throw_if and_then] in Hm. split.
      * intros good r rest Hcc F I. rewrite Hcc in Hm.
        cbn [when_present] in Hm.
        rewrite (validateRecipients_first_invalid _ _ _ _ F I) in Hm.
        cbn [and_then] in Hm. congruence.
      * intros Fcc.
        assert (Hcc : when_present (cc options)
                        (EmailService.validateRecipients "cc") = Return tt).
        { destruct (cc options) as [lc |]; cbn; [| reflexivity].
          now apply validateRecipients_valid, Fcc. }
        rewrite Hcc in Hm. cbn [and_then] in Hm. split.
        -- intros good r rest Hbcc F I. rewrite Hbcc in Hm.
           cbn [when_present] in Hm.
           rewrite (validateRecipients_first_invalid _ _ _ _ F I) in Hm.
           cbn [and_then] in Hm. congruence.
        -- intros Fbcc.
           assert (Hbcc : when_present (bcc options)
                            (EmailService.validateRecipients "bcc") = Return tt).
           { destruct (bcc options) as [lb |]; cbn; [| reflexivity].
             now apply validateRecipients_valid, Fbcc. }
           rewrite Hbcc in Hm. cbn [and_then] in Hm. split.
           ++ intros B. rewrite B, orb_true_r in Hm. cbn in Hm. congruence.
           ++ intros B Ht Hh. rewrite B, Ht, Hh in Hm.
              destruct (subject options); [discriminate B |].
              cbn in Hm. congruence.
Qed.

(** C4, as amended.  When some recipient in [to], [cc] or [bcc] has an
    address that fails the pattern, [send] throws a ValidationError and
    makes no request.  The error carries no [field]; the path of a
    recipient is in its message only when the checks before that recipient
    pass.  With an empty [fromEmailId] the message is
    [From email ID is required]; otherwise, with an empty [to], it is
    [At least one recipient is required]; otherwise it is the one of the
    first recipient that fails, in the order [to], [cc], [bcc], that is
    [<array>[<index>].email is required] for an empty address and
    [<array>[<index>].email is not a valid email address] otherwise. *)
Theorem send_invalid_recipient (rt : Runtime) (options : SendEmailOptions)
    (axios : Axios (SentEmailOf string)) :
  Exists invalid (to options)
  \/ (exists l, cc options = Some l /\ Exists invalid l)
  \/ (exists l, bcc options = Some l /\ Exists invalid l) ->
  let o := EmailService.send rt options axios in
  requests o = [] /\
  exists message,
    completion o = Throw (Mayl (ValidationError message None None)) /\
    (fromEmailId options = "" -> message = "From email ID is required") /\
    (fromEmailId options <> "" -> to options = [] ->
     message = "At least one recipient is required") /\
    (fromEmailId options <> "" ->
       (forall good r rest,
          to options = (good ++ r :: rest)%list -> Forall valid good -> invalid r ->
          message = recipientMessage (EmailService.indexed "to" (length good)) r) /\
       (to options <> [] -> Forall valid (to options) ->
          (forall good r rest,
             cc options = Some (good ++ r :: rest)%list ->
             Forall valid good -> invalid r ->
             message = recipientMessage (EmailService.indexed "cc" (length good)) r) /\
          ((forall l, cc options = Some l -> Forall valid l) ->
           forall good r rest,
             bcc options = Some (good ++ r :: rest)%list ->
             Forall valid good -> invalid r ->
             message
             = recipientMessage (EmailService.indexed "bcc" (length good)) r))).
Proof.
  intros E. cbn zeta.
  assert (R : rejects (EmailService.validateSendOptions
                         (Date_at (Date_now rt)) options)).
  { unfold EmailService.validateSendOptions.
    destruct E as [E | [(l & Hl & E) | (l & Hl & E)]].
    - do 6 apply rejects_and_then_l. apply rejects_and_then_r.
      + auto with client.
      + now apply rejects_validateRecipients.
    - do 5 apply rejects_and_then_l. apply rejects_and_then_r.
      + repeat apply validation_and_then; auto with client.
      + rewrite Hl. cbn. now apply rejects_validateRecipients.
    - do 4 apply rejects_and_then_l. apply rejects_and_then_r.
      + repeat apply validation_and_then; auto with client.
      + rewrite Hl. cbn. now apply rejects_validateRecipients. }
  destruct R as [m Hm]. rewrite (send_rejected _ _ _ _ Hm).
  split; [reflexivity |]. exists m. split; [reflexivity |].
  destruct (validateSendOptions_message _ _ _ Hm) as [Hempty Hrest].
  split; [exact Hempty |]. split.
  - intros N. now apply (Hrest N).
  - intros N. destruct (Hrest N) as (_ & Hto & Hcc).
    split; [exact Hto |]. intros Hne Fto.
    destruct (Hcc Hne Fto) as [Hc Hb].
    split; [exact Hc |]. intros Fcc. now apply (Hb Fcc).
Qed.

(** C7.  [send] with a [scheduledAt] that is a valid date not after the
    clock reading taken by the validation throws a ValidationError and makes
    no request. *)
Theorem send_rejects_past_schedule (rt : Runtime) (options : SendEmailOptions)
    (axios : Axios (SentEmailOf string)) (t : Z) :
  scheduledAt options = Some (Date_at t) ->
  t <= Date_now rt ->
  let o := EmailService.send rt options axios in
  requests o = [] /\
  exists message,
    completion o = Throw (Mayl (ValidationError message None None)).
Proof.
  intros Hs Hle. cbn zeta.
  assert (R : rejects (EmailService.validateSendOptions
                         (Date_at (Date_now rt)) options)).
  { unfold EmailService.validateSendOptions. apply rejects_and_then_r.
    - repeat apply validation_and_then; auto with client.
    - rewrite Hs. cbn. apply rejects_throw_if. now apply Z.leb_le. }
  destruct R as [m Hm]. rewrite (send_rejected _ _ _ _ Hm).
  split; [reflexivity | now exists m].
Qed.

(** C8, as amended.  [send] with neither [text] nor [html] (absent or
    empty) throws a ValidationError and makes no request.  Its message is
    the one of the first check that fails, in the order of the source:
    [From email ID is required] for an empty [fromEmailId]; otherwise
    [At least one recipient is required] for an empty [to]; otherwise the
    message of the first recipient of [to], then [cc], then [bcc], whose
    address fails the pattern; otherwise [Subject is required] for a blank
    subject; and [Either text or HTML content is required] when all these
    checks pass. *)
Theorem send_requires_content (rt : Runtime) (options : SendEmailOptions)
    (axios : Axios (SentEmailOf string)) :
  JS.truthy (text options) = false ->
  JS.truthy (html options) = false ->
  let o := EmailService.send rt options axios in
  requests o = [] /\
  exists message,
    completion o = Throw (Mayl (ValidationError message None None)) /\
    (wellAddressed options ->
     message = "Either text or HTML content is required") /\
    (fromEmailId options = "" -> message = "From email ID is required") /\
    (fromEmailId options <> "" ->
       (to options = [] -> message = "At least one recipient is required") /\
       (forall good r rest,
          to options = (good ++ r :: rest)%list -> Forall valid good -> invalid r ->
          message = recipientMessage (EmailService.indexed "to" (length good)) r) /\
       (to options <> [] -> Forall valid (to options) ->
          (forall good r rest,
             cc options = Some (good ++ r :: rest)%list ->
             Forall valid good -> invalid r ->
             message = recipientMessage (EmailService.indexed "cc" (length good)) r) /\
          ((forall l, cc options = Some l -> Forall valid l) ->
             (forall good r rest,
                bcc options = Some (good ++ r :: rest)%list ->
                Forall valid good -> invalid r ->
                message
                = recipientMessage (EmailService.indexed "bcc" (length good)) r) /\
             ((forall l, bcc options = Some l -> Forall valid l) ->
              JS.isBlank (subject options) = true ->
              message = "Subject is required")))).
Proof.
  intros Ht Hh. cbn zeta.
  assert (R : rejects (EmailService.validateSendOptions
                         (Date_at (Date_now rt)) options)).
  { unfold EmailService.validateSendOptions.
    do 2 apply rejects_and_then_l. apply rejects_and_then_r.
    - repeat apply validation_and_then; auto with client.
    - apply rejects_throw_if. now rewrite Ht, Hh. }
  destruct R as [m Hm]. rewrite (send_rejected _ _ _ _ Hm).
  split; [reflexivity |]. exists m. split; [reflexivity |].
  destruct (validateSendOptions_message _ _ _ Hm) as [Hempty Hrest].
  split; [| split; [exact Hempty |]].
  - intros W. rewrite (wellAddressed_checks _ _ W), Ht, Hh in Hm.
    cbn in Hm. congruence.
  - intros N. destruct (Hrest N) as (He & Hto & Hcc).
    split; [exact He |]. split; [exact Hto |]. intros Hne Fto.
    destruct (Hcc Hne Fto) as [Hc Hb].
    split; [exact Hc |]. intros Fcc. destruct (Hb Fcc) as [Hbcc Hs].
    split; [exact Hbcc |]. intros Fbcc B. now apply (Hs Fbcc).
Qed.

(** ** Failed envelopes and transport errors *)

(** Splits the validation steps that guard the request of an operation. *)
Ltac split_guards :=
  repeat match goal with
         | |- context [match ?v with Return _ => _ | Throw _ => _ end] =>
             destruct v; cbn; autorewrite with client_eqs; cbn zeta
         end.

(** Uses a request of the trace and the answer axios gave to it. *)
Ltac use_answer R A :=
  cbn in R;
  first
    [ contradiction
    | match goal with
      | |- context [match ?axios ?req0 with inl _ => _ | inr _ => _ end] =>
          let A0 := fresh "A0" in
          destruct (axios req0) eqn:A0; cbn in R |- *;
          autorewrite with client_eqs in R; autorewrite with client_eqs;
          cbn in R |- *;
          (destruct R as [R | R]; [| contradiction]);
          rewrite <- R in A; rewrite A0 in A; inversion A; subst
      end ].

(** C3, as amended.  In every operation of the two services, an envelope
    received with [success = false] is thrown as the wrapper of the
    service, EmailAddressError for email addresses and EmailSendError for
    emails, with the [error] of the envelope as its message, or the fallback
    of the operation when that is absent or empty; the operation does not
    return. *)
Theorem failed_envelope_wrapped (rt : Runtime) (op : Operation)
    (axios : Axios (payload op)) (req : Request)
    (envelope : APIResponse (payload op)) :
  service op <> Facade ->
  In req (requests (run rt op axios)) ->
  axios req = inr envelope ->
  success envelope = false ->
  exists e,
    wrapper (service op) (JS.or_else (error envelope) (fallback op)) = Some e /\
    completion (run rt op axios) = Throw (Mayl e).
Proof.
  intros S R A F.
  destruct op; cbn [service] in S; try congruence; clear S;
    cbn [payload] in *; cbn [service wrapper fallback];
    eexists; (split; [reflexivity |]);
    revert R; step_client; split_guards; intros R;
    use_answer R A; now rewrite F.
Qed.

(** ** The health check *)

Lemma healthCheck_eq rt (axios : Axios InboxSDK.Payload) :
  InboxSDK.healthCheck rt axios
  = mkOutcome
      (Return
         match axios healthRequest with
         | inl error =>
             {| InboxSDK.status := InboxSDK.unhealthy;
                InboxSDK.message :=
                  JS.or_else (Some (Err.message (handleAPIError error)))
                    "Health check failed";
                InboxSDK.timestamp := Date_at (Date_now rt);
                InboxSDK.apiVersion := None;
                InboxSDK.accountId := None |}
         | inr envelope =>
             match data envelope with
             | InboxSDK.Data d =>
                 {| InboxSDK.status := InboxSDK.healthy;
                    InboxSDK.message :=
                      JS.or_else (Some (InboxSDK.health_message d))
                        "API is healthy";
                    InboxSDK.timestamp := Date_at (Date_now rt);
                    InboxSDK.apiVersion := Some (InboxSDK.health_apiVersion d);
                    InboxSDK.accountId := Some (InboxSDK.health_accountId d) |}
             | InboxSDK.NoData n =>
                 {| InboxSDK.status := InboxSDK.unhealthy;
                    InboxSDK.message := InboxSDK.missingData n;
                    InboxSDK.timestamp := Date_at (Date_now rt);
                    InboxSDK.apiVersion := None;
                    InboxSDK.accountId := None |}
             end
         end)
      [healthRequest].
Proof.
  unfold InboxSDK.healthCheck, try_catch, HTTPClient.get.
  rewrite request_bind. cbn zeta. fold healthRequest.
  destruct (axios healthRequest) as [error | envelope]; [reflexivity |].
  cbn. rewrite lift_bind.
  destruct (data envelope) as [d | []]; reflexivity.
Qed.

(** Every operation but the health check rethrows what the adapter
    throws. *)
Lemma transport_error_propagates rt op (axios : Axios (payload op)) req error :
  op <> HealthCheck ->
  In req (requests (run rt op axios)) ->
  axios req = inl error ->
  completion (run rt op axios) = Throw (Mayl (handleAPIError error)).
Proof.
  intros N R A.
  destruct op; try congruence; clear N; cbn [payload] in *;
    revert R; step_client; split_guards; intros R;
    use_answer R A; reflexivity.
Qed.

(** C9.  [healthCheck] never throws: whatever axios answers, it returns a
    result.  When the request fails, the result is [unhealthy] and carries
    the message of the error the adapter made of the failure (or
    [Health check failed] if that message is empty).  Every other operation
    that reaches the network rethrows the adapter's error. *)
Theorem healthCheck_never_raises (rt : Runtime)
    (axios : Axios InboxSDK.Payload) :
  (exists h, completion (InboxSDK.healthCheck rt axios) = Return h) /\
  (forall error,
     axios healthRequest = inl error ->
     exists h,
       completion (InboxSDK.healthCheck rt axios) = Return h /\
       InboxSDK.status h = InboxSDK.unhealthy /\
       InboxSDK.message h
       = JS.or_else (Some (Err.message (handleAPIError error)))
           "Health check failed" /\
       (Err.message (handleAPIError error) <> "" ->
        InboxSDK.message h = Err.message (handleAPIError error))) /\
  (forall op (axios' : Axios (payload op)) req error,
     op <> HealthCheck ->
     In req (requests (run rt op axios')) ->
     axios' req = inl error ->
     completion (run rt op axios') = Throw (Mayl (handleAPIError error))).
Proof.
  rewrite healthCheck_eq. repeat split.
  - destruct (axios healthRequest); cbn; eauto.
  - intros error A. rewrite A. cbn [completion]. eexists.
    split; [reflexivity |]. cbn [InboxSDK.status InboxSDK.message].
    repeat split. intros N. cbn.
    destruct (Err.message (handleAPIError error)); [congruence | reflexivity].
  - intros. now apply transport_error_propagates with req.
Qed.

(** C10, as amended.  [healthCheck] reads only the [data] of the envelope
    and never its [success] or [error]: two envelopes with the same [data]
    give the same result.  For every envelope that carries a payload, with
    [success] true or false, it returns [healthy] with the message of the
    payload (or [API is healthy] if that is empty).  For an envelope whose
    [data] is [undefined] or [null], the read of [response.data.message]
    throws inside the [try], and it returns [unhealthy] with the message of
    that [TypeError]. *)
Theorem healthCheck_ignores_success (rt : Runtime)
    (axios : Axios InboxSDK.Payload) (envelope : APIResponse InboxSDK.Payload) :
  axios healthRequest = inr envelope ->
  (forall d,
     data envelope = InboxSDK.Data d ->
     exists h,
       completion (InboxSDK.healthCheck rt axios) = Return h /\
       InboxSDK.status h = InboxSDK.healthy /\
       InboxSDK.message h
       = JS.or_else (Some (InboxSDK.health_message d)) "API is healthy") /\
  (forall n,
     data envelope = InboxSDK.NoData n ->
     exists h,
       completion (InboxSDK.healthCheck rt axios) = Return h /\
       InboxSDK.status h = InboxSDK.unhealthy /\
       InboxSDK.message h = InboxSDK.missingData n) /\
  (forall (axios' : Axios InboxSDK.Payload) envelope',
     axios' healthRequest = inr envelope' ->
     data envelope' = data envelope ->
     InboxSDK.healthCheck rt axios' = InboxSDK.healthCheck rt axios).
Proof.
  intros A. rewrite healthCheck_eq, A. repeat split.
  - intros d ->. eexists. repeat split.
  - intros n ->. eexists. repeat split.
  - intros axios' envelope' A' D. now rewrite healthCheck_eq, A', D.
Qed.

(** ** Concrete runs *)

(** C6 on [extend('addr_1', 0)]. *)
Lemma extend_requires_positive_witness :
  JS.le_zero (JS.of_Z 0) = true /\
  requests (EmailAddressService.extend Runs.rt "addr_1" (JS.of_Z 0) Runs.offline)
  = [].
Proof.
  split; [reflexivity |].
  destruct (extend_requires_positive Runs.rt "addr_1" (JS.of_Z 0) Runs.offline)
    as [H _].
  now destruct (H eq_refl).
Defined.

(** C7 on a letter scheduled in 1970. *)
Lemma send_rejects_past_schedule_witness :
  scheduledAt (Runs.scheduled_at (Date_at 1000) Runs.letter) = Some (Date_at 1000) /\
  1000 <= Date_now Runs.rt /\
  requests (EmailService.send Runs.rt
              (Runs.scheduled_at (Date_at 1000) Runs.letter) Runs.offline) = [].
Proof.
  split; [reflexivity |]. split; [cbn; lia |].
  refine (proj1 (send_rejects_past_schedule Runs.rt
                   (Runs.scheduled_at (Date_at 1000) Runs.letter) Runs.offline
                   1000 eq_refl _)).
  cbn; lia.
Defined.

(** The message of the past schedule, on a letter that is otherwise in
    order. *)
Example send_past_schedule_message :
  EmailService.send Runs.rt (Runs.scheduled_at (Date_at 1000) Runs.letter)
    Runs.offline
  = mkOutcome
      (Throw (Mayl (ValidationError "Scheduled time must be in the future"
                      None None)))
      [].
Proof. reflexivity. Qed.

(** An invalid date is not rejected by the validation; [toISOString] then
    throws a [RangeError], still before any request. *)
Example send_invalid_date :
  EmailService.send Runs.rt (Runs.scheduled_at Invalid_Date Runs.letter)
    Runs.offline
  = mkOutcome (Throw (RangeError "Invalid time value")) [].
Proof. reflexivity. Qed.

(** C4, as amended, on a letter whose third recipient has no dot after
    the [@]. *)
Lemma send_invalid_recipient_witness :
  Exists invalid (to (Runs.with_to [Runs.alice; Runs.bob; Runs.mallory] Runs.letter)) /\
  EmailService.send Runs.rt
    (Runs.with_to [Runs.alice; Runs.bob; Runs.mallory] Runs.letter) Runs.offline
  = mkOutcome
      (Throw (Mayl (ValidationError "to[2].email is not a valid email address"
                      None None)))
      [].
Proof.
  assert (E : Exists invalid
                (to (Runs.with_to [Runs.alice; Runs.bob; Runs.mallory] Runs.letter))).
  { cbn. do 2 apply Exists_cons_tl. apply Exists_cons_hd. reflexivity. }
  split; [exact E |].
  destruct (send_invalid_recipient Runs.rt
              (Runs.with_to [Runs.alice; Runs.bob; Runs.mallory] Runs.letter)
              Runs.offline (or_introl E))
    as (Hreq & m & Hc & Hm).
  destruct Hm as (_ & _ & Hm).
  destruct (Hm ltac:(discriminate)) as [Hto _].
  specialize (Hto [Runs.alice; Runs.bob] Runs.mallory [] eq_refl).
  assert (F : Forall valid [Runs.alice; Runs.bob]).
  { repeat constructor. }
  specialize (Hto F eq_refl). cbn in Hto. subst m.
  destruct (EmailService.send Runs.rt _ Runs.offline) as [c rs].
  cbn in Hreq, Hc. now subst.
Defined.

(** C4 fails as stated.  With an empty [fromEmailId] the error of [send]
    is the one of the sender, and names the recipient neither in its
    message nor in its [field]; with the sender in order, the message names
    [to[0].email] and the [field] of the error is still undefined. *)
Lemma send_invalid_recipient_counterexample :
  invalid Runs.mallory /\
  EmailService.send Runs.rt
    (Runs.with_from "" (Runs.with_to [Runs.mallory] Runs.letter)) Runs.offline
  = mkOutcome
      (Throw (Mayl (ValidationError "From email ID is required" None None))) [] /\
  JS.includes "From email ID is required" "to[0].email" = false /\
  exists e,
    completion (EmailService.send Runs.rt
                  (Runs.with_to [Runs.mallory] Runs.letter) Runs.offline)
    = Throw (Mayl e) /\
    Err.message e = "to[0].email is not a valid email address" /\
    Err.field e = None.
Proof.
  repeat split. eexists. repeat split.
Qed.

(** C8, as amended, on a letter that is in order but for its content. *)
Lemma send_requires_content_witness :
  JS.truthy (text (Runs.without_content Runs.letter)) = false /\
  JS.truthy (html (Runs.without_content Runs.letter)) = false /\
  EmailService.send Runs.rt (Runs.without_content Runs.letter) Runs.offline
  = mkOutcome
      (Throw (Mayl (ValidationError "Either text or HTML content is required"
                      None None)))
      [].
Proof.
  split; [reflexivity |]. split; [reflexivity |].
  destruct (send_requires_content Runs.rt (Runs.without_content Runs.letter)
              Runs.offline eq_refl eq_refl)
    as (Hreq & m & Hc & Hm).
  assert (W : wellAddressed (Runs.without_content Runs.letter)).
  { repeat split; try discriminate; repeat constructor. }
  destruct Hm as [Hm _]. specialize (Hm W). subst m.
  destruct (EmailService.send Runs.rt _ Runs.offline) as [c rs].
  cbn in Hreq, Hc. now subst.
Defined.

(** C8 fails as stated.  With neither [text] nor [html] and an empty
    [fromEmailId], the message of the error is the one of the sender and
    says nothing of the content. *)
Lemma send_requires_content_counterexample :
  text (Runs.with_from "" (Runs.without_content Runs.letter)) = None /\
  html (Runs.with_from "" (Runs.without_content Runs.letter)) = None /\
  EmailService.send Runs.rt
    (Runs.with_from "" (Runs.without_content Runs.letter)) Runs.offline
  = mkOutcome
      (Throw (Mayl (ValidationError "From email ID is required" None None))) [] /\
  JS.includes "From email ID is required" "content" = false.
Proof. repeat split. Qed.

(** C3, as amended, on [emailAddresses.get] and a failed envelope. *)
Lemma failed_envelope_wrapped_witness :
  service (AddressGet "addr_1") <> Facade /\
  success (Runs.failing Runs.address) = false /\
  completion (EmailAddressService.get Runs.rt "addr_1"
                (Runs.answering (Runs.failing Runs.address)))
  = Throw (Mayl (EmailAddressError "Account suspended" None)).
Proof.
  split; [discriminate |]. split; [reflexivity |].
  destruct (failed_envelope_wrapped Runs.rt (AddressGet "addr_1")
              (Runs.answering (Runs.failing Runs.address))
              (mkRequest GET "/email-addresses/addr_1" [] None)
              (Runs.failing Runs.address))
    as (e & He & Hc).
  - discriminate.
  - left. reflexivity.
  - reflexivity.
  - reflexivity.
  - cbn in He. injection He as <-. exact Hc.
Defined.

(** C3 fails as stated.  [getAccountInfo] and [healthCheck] are public
    operations, and both return on an envelope with [success = false]:
    neither reads [success]. *)
Lemma failed_envelope_counterexample :
  success (Runs.failing Runs.account) = false /\
  completion (InboxSDK.getAccountInfo Runs.rt
                (Runs.answering (Runs.failing Runs.account)))
  = Return
      {| InboxSDK.account_accountId := "acct_1";
         InboxSDK.plan := "free";
         InboxSDK.emailAddressLimit := JS.of_Z 10;
         InboxSDK.emailAddressUsed := JS.of_Z 10;
         InboxSDK.emailsSentThisMonth := JS.of_Z 0;
         InboxSDK.emailLimitPerMonth := JS.of_Z 100;
         InboxSDK.account_createdAt := Invalid_Date;
         InboxSDK.lastActivity := Invalid_Date |} /\
  success (Runs.failing (InboxSDK.Data Runs.health)) = false /\
  returns (completion (InboxSDK.healthCheck Runs.rt
                         (Runs.answering
                            (Runs.failing (InboxSDK.Data Runs.health)))))
  = true.
Proof. repeat split. Qed.

(** C9 with the network down: the health check returns, [get] throws. *)
Lemma healthCheck_never_raises_witness :
  (Runs.offline : Axios InboxSDK.Payload) healthRequest
  = inl Examples.refusedError /\
  completion (InboxSDK.healthCheck Runs.rt Runs.offline)
  = Return
      {| InboxSDK.status := InboxSDK.unhealthy;
         InboxSDK.message :=
           "Network error: connect ECONNREFUSED 127.0.0.1:8080";
         InboxSDK.timestamp := Date_at 1735689600000;
         InboxSDK.apiVersion := None;
         InboxSDK.accountId := None |} /\
  completion (EmailAddressService.get Runs.rt "addr_1" Runs.offline)
  = Throw (Mayl (NetworkError
                   "Network error: connect ECONNREFUSED 127.0.0.1:8080" None)).
Proof.
  split; [reflexivity |].
  destruct (healthCheck_never_raises Runs.rt Runs.offline) as (_ & _ & Hothers).
  split; [reflexivity |].
  apply (Hothers (AddressGet "addr_1") Runs.offline
           (mkRequest GET "/email-addresses/addr_1" [] None)
           Examples.refusedError).
  - discriminate.
  - left. reflexivity.
  - reflexivity.
Defined.

(** C10, as amended, on an envelope with [success = false] and a payload
    with an empty message. *)
Lemma healthCheck_ignores_success_witness :
  success (Runs.failing (InboxSDK.Data Runs.health)) = false /\
  exists h,
    completion (InboxSDK.healthCheck Runs.rt
                  (Runs.answering (Runs.failing (InboxSDK.Data Runs.health))))
    = Return h /\
    InboxSDK.status h = InboxSDK.healthy /\
    InboxSDK.message h = "API is healthy".
Proof.
  split; [reflexivity |].
  exact (proj1 (healthCheck_ignores_success Runs.rt
                  (Runs.answering (Runs.failing (InboxSDK.Data Runs.health)))
                  (Runs.failing (InboxSDK.Data Runs.health)) eq_refl)
           Runs.health eq_refl).
Defined.

(** C10 fails as stated.  On an envelope received with [success = false],
    an [error] and no [data], no transport error is raised and yet
    [healthCheck] returns [unhealthy]: the read of [response.data.message]
    throws inside the [try]. *)
Lemma healthCheck_ignores_success_counterexample :
  (Runs.answering (Runs.failing (InboxSDK.NoData InboxSDK.js_undefined))
     : Axios InboxSDK.Payload) healthRequest
  = inr (Runs.failing (InboxSDK.NoData InboxSDK.js_undefined)) /\
  completion (InboxSDK.healthCheck Runs.rt
                (Runs.answering
                   (Runs.failing (InboxSDK.NoData InboxSDK.js_undefined))))
  = Return
      {| InboxSDK.status := InboxSDK.unhealthy;
         InboxSDK.message :=
           "Cannot read properties of undefined (reading 'message')";
         InboxSDK.timestamp := Date_at 1735689600000;
         InboxSDK.apiVersion := None;
         InboxSDK.accountId := None |}.
Proof. split; reflexivity. Qed.

(** * Further properties of the code *)

(** ** The adapter's errors *)

Lemma or_else_nonempty a b : b <> "" -> JS.or_else a b <> "".
Proof.
  intros N. unfold JS.or_else.
  destruct a as [[| c s] |]; cbn; auto; discriminate.
Qed.

(** The cases of [handleAPIError] on a failure that carries a response. *)
Lemma handleAPIError_cases error r :
  response error = Some r ->
  handleAPIError error
  = AuthenticationError (errorMessage error r) (requestIdOf error)
  \/ handleAPIError error
     = AuthorizationError (errorMessage error r) (requestIdOf error)
  \/ handleAPIError error = NotFoundError "Resource" None (requestIdOf error)
  \/ handleAPIError error
     = ValidationError (errorMessage error r) None (requestIdOf error)
  \/ (exists after,
        handleAPIError error
        = RateLimitError (errorMessage error r) after (requestIdOf error))
  \/ (exists message,
        (message = errorMessage error r
         \/ message = "HTTP " +:+ status_toString (status r) +:+ ": "
                      +:+ errorMessage error r)
        /\ handleAPIError error
           = ServerError message (status r) (requestIdOf error)).
Proof.
  intros H.
  destruct (in_dec Z.eq_dec (status r)
              [400; 401; 403; 404; 429; 500; 502; 503; 504]) as [I | I].
  - cbn in I.
    repeat match goal with
           | J : _ \/ _ |- _ => destruct J as [J | J]
           | J : False |- _ => destruct J
           end; symmetry in I.
    + rewrite (handleAPIError_400 _ _ H I). tauto.
    + rewrite (handleAPIError_401 _ _ H I). tauto.
    + rewrite (handleAPIError_403 _ _ H I). tauto.
    + rewrite (handleAPIError_404 _ _ H I). tauto.
    + rewrite (handleAPIError_429 _ _ H I). do 4 right. left. eauto.
    + rewrite (handleAPIError_5xx _ _ H) by tauto. do 5 right. eauto.
    + rewrite (handleAPIError_5xx _ _ H) by tauto. do 5 right. eauto.
    + rewrite (handleAPIError_5xx _ _ H) by tauto. do 5 right. eauto.
    + rewrite (handleAPIError_5xx _ _ H) by tauto. do 5 right. eauto.
  - rewrite (handleAPIError_other _ _ H I). do 5 right. eauto.
Qed.

(** X1.  The [statusCode] of the error made of a response is the status of
    that response, whatever the class of the error. *)
Theorem handleAPIError_statusCode (error : AxiosError) (r : AxiosResponse) :
  response error = Some r ->
  Err.statusCode (handleAPIError error) = status r.
Proof.
  intros H.
  destruct (in_dec Z.eq_dec (status r)
              [400; 401; 403; 404; 429; 500; 502; 503; 504]) as [I | I].
  - cbn in I.
    repeat match goal with
           | J : _ \/ _ |- _ => destruct J as [J | J]
           | J : False |- _ => destruct J
           end; symmetry in I.
    + now rewrite (handleAPIError_400 _ _ H I).
    + now rewrite (handleAPIError_401 _ _ H I).
    + now rewrite (handleAPIError_403 _ _ H I).
    + now rewrite (handleAPIError_404 _ _ H I).
    + now rewrite (handleAPIError_429 _ _ H I).
    + rewrite (handleAPIError_5xx _ _ H); tauto.
    + rewrite (handleAPIError_5xx _ _ H); tauto.
    + rewrite (handleAPIError_5xx _ _ H); tauto.
    + rewrite (handleAPIError_5xx _ _ H); tauto.
  - now rewrite (handleAPIError_other _ _ H I).
Qed.

(** X1 on the 429 response. *)
Lemma handleAPIError_statusCode_witness :
  response Examples.error429 = Some Examples.response429 /\
  Err.statusCode (handleAPIError Examples.error429) = 429.
Proof.
  split; [reflexivity |].
  exact (handleAPIError_statusCode Examples.error429 Examples.response429 eq_refl).
Defined.


(** X3.  When the message of the axios failure is not empty, neither is
    the message of the error the adapter makes of it. *)
Theorem handleAPIError_message_nonempty (error : AxiosError) :
  message error <> "" ->
  Err.message (handleAPIError error) <> "".
Proof.
  intros N. destruct (response error) as [r |] eqn:H.
  - assert (M : errorMessage error r <> "") by now apply or_else_nonempty.
    destruct (handleAPIError_cases error r H)
      as [E | [E | [E | [E | [[a E] | (m & [-> | ->] & E)]]]]];
      rewrite E; cbn [Err.message]; auto; discriminate.
  - unfold handleAPIError. rewrite H.
    destruct (timeoutIndicator error); cbn [Err.message]; discriminate.
Qed.

(** X3 on a refused connection. *)
Lemma handleAPIError_message_nonempty_witness :
  message Examples.refusedError <> "" /\
  Err.message (handleAPIError Examples.refusedError) <> "".
Proof.
  assert (N : message Examples.refusedError <> "") by discriminate.
  exact (conj N (handleAPIError_message_nonempty Examples.refusedError N)).
Defined.

(** X4.  The [code] of an error tells its class: two errors have the same
    code exactly when they are instances of the same class. *)
Theorem code_distinguishes_class (e1 e2 : MaylError) :
  Err.code e1 = Err.code e2 <-> Err.name e1 = Err.name e2.
Proof.
  destruct e1, e2; cbn; split; intros E; try reflexivity; discriminate E.
Qed.

(** ** One round trip per operation *)

(** Case analysis on everything that decides the trace of an operation:
    its guards, then the answer of axios. *)
Ltac run_cases :=
  step_client; split_guards;
  try match goal with
      | |- context [match ?axios ?req with inl _ => _ | inr _ => _ end] =>
          destruct (axios req); cbn; autorewrite with client_eqs; cbn
      end.

(** X5.  An operation makes at most one request. *)
Theorem at_most_one_request (rt : Runtime) (op : Operation)
    (axios : Axios (payload op)) :
  (length (requests (run rt op axios)) <= 1)%nat.
Proof.
  destruct op; cbn [payload] in *;
    try (run_cases; cbn; lia).
  cbn [run]. rewrite healthCheck_eq.
  destruct (axios healthRequest); cbn; lia.
Qed.

(** X6.  An operation returns only after the network was asked: when it
    returns, its trace is one request. *)
Theorem returns_after_request (rt : Runtime) (op : Operation)
    (axios : Axios (payload op)) :
  returns (completion (run rt op axios)) = true ->
  exists req, requests (run rt op axios) = [req].
Proof.
  destruct op; cbn [payload] in *;
    try (run_cases; cbn; intros R; try discriminate R; eauto).
  cbn [run]. rewrite healthCheck_eq.
  destruct (axios healthRequest); cbn; eauto.
Qed.

(** X6 on [getAccountInfo] and an answering network. *)
Lemma returns_after_request_witness :
  returns (completion (run Runs.rt GetAccountInfo
                         (Runs.answering (Runs.failing Runs.account)))) = true /\
  requests (run Runs.rt GetAccountInfo
              (Runs.answering (Runs.failing Runs.account)))
  = [mkRequest GET "/account" [] None].
Proof.
  split; [reflexivity |].
  destruct (returns_after_request Runs.rt GetAccountInfo
              (Runs.answering (Runs.failing Runs.account)) eq_refl)
    as [req E].
  rewrite E. cbn in E. now injection E as <-.
Defined.

(** X7.  An envelope received with [success = true] is never turned into
    an error: the operation returns. *)
Theorem successful_envelope_returns (rt : Runtime) (op : Operation)
    (axios : Axios (payload op)) (req : Request)
    (envelope : APIResponse (payload op)) :
  In req (requests (run rt op axios)) ->
  axios req = inr envelope ->
  success envelope = true ->
  returns (completion (run rt op axios)) = true.
Proof.
  intros R A S.
  destruct op; cbn [payload] in *;
    try (revert R; step_client; split_guards; intros R;
         use_answer R A; now rewrite ?S).
  cbn [run]. rewrite healthCheck_eq.
  now destruct (axios healthRequest).
Qed.

(** X7 on [emailAddresses.get]. *)
Lemma successful_envelope_returns_witness :
  success (mkAPIResponse Runs.address true None None) = true /\
  returns (completion (EmailAddressService.get Runs.rt "addr_1"
                         (Runs.answering
                            (mkAPIResponse Runs.address true None None))))
  = true.
Proof.
  split; [reflexivity |].
  apply (successful_envelope_returns Runs.rt (AddressGet "addr_1")
           (Runs.answering (mkAPIResponse Runs.address true None None))
           (mkRequest GET "/email-addresses/addr_1" [] None)
           (mkAPIResponse Runs.address true None None)).
  - left. reflexivity.
  - reflexivity.
  - reflexivity.
Defined.

(** ** Email addresses *)

(** X8.  [get], [update], [delete] and [extend] of an email address check
    the identifier first: with an empty one each throws the same
    ValidationError and makes no request; with any other, [get], [update]
    and [delete] make exactly the request to the resource of that
    identifier. *)
Theorem address_id_required (rt : Runtime) (id : string)
    (updates : AddressUpdates) (minutes : JS.number)
    (axios : Axios (EmailAddressOf string)) (axios' : Axios json) :
  let rejected A : Outcome A :=
    mkOutcome
      (Throw (Mayl (ValidationError "Email address ID is required" None None)))
      [] in
  (id = "" ->
     EmailAddressService.get rt id axios = rejected _ /\
     EmailAddressService.update rt id updates axios = rejected _ /\
     EmailAddressService.delete id axios' = rejected _ /\
     EmailAddressService.extend rt id minutes axios = rejected _) /\
  (id <> "" ->
     requests (EmailAddressService.get rt id axios)
     = [mkRequest GET ("/email-addresses/" +:+ id) [] None] /\
     requests (EmailAddressService.update rt id updates axios)
     = [mkRequest PATCH ("/email-addresses/" +:+ id) []
          (Some (UpdateBody updates))] /\
     requests (EmailAddressService.delete id axios')
     = [mkRequest DELETE ("/email-addresses/" +:+ id) [] None]).
Proof.
  cbn zeta. split.
  - intros ->. repeat split; step_client; reflexivity.
  - intros N. destruct id as [| c id]; [congruence |].
    repeat split; step_client; cbn; by_answer.
Qed.

(** What [validateCreateOptions] lets through: no expiration, or an
    expiration that is not [<= 0] on a temporary address. *)
Lemma validateCreateOptions_accepts options :
  EmailAddressService.validateCreateOptions options = Return tt
  <-> expirationMinutes options = None
      \/ exists minutes,
           expirationMinutes options = Some minutes
           /\ JS.le_zero minutes = false
           /\ type options = temporary.
Proof.
  unfold EmailAddressService.validateCreateOptions.
  destruct (expirationMinutes options) as [m |]; [| tauto].
  destruct (JS.le_zero m) eqn:L; cbn.
  - split; [discriminate |]. intros [E | (m' & E & L' & _)]; congruence.
  - destruct (type options); cbn.
    + split; eauto.
    + split; [discriminate |]. intros [E | (m' & _ & _ & E)]; congruence.
Qed.

(** X9.  [create] reaches the network exactly when the options carry no
    expiration, or an expiration that is not [<= 0] together with the
    type [temporary]; the request is then the POST of the options as they
    were given. *)
Theorem create_reaches_network_iff (rt : Runtime)
    (options : CreateEmailAddressOptions)
    (axios : Axios (EmailAddressOf string)) :
  (requests (EmailAddressService.create rt options axios) <> []
   <-> expirationMinutes options = None
       \/ exists minutes,
            expirationMinutes options = Some minutes
            /\ JS.le_zero minutes = false
            /\ type options = temporary) /\
  (requests (EmailAddressService.create rt options axios) <> [] ->
   requests (EmailAddressService.create rt options axios)
   = [mkRequest POST "/email-addresses" [] (Some (CreateBody options))]).
Proof.
  rewrite <- validateCreateOptions_accepts. step_client.
  destruct (validation_validateCreateOptions options) as [-> | [m ->]].
  - split; [split; [reflexivity |] |]; intros _; by_answer; discriminate.
  - cbn. split; [split |]; [congruence | discriminate | congruence].
Qed.

(** X9 on a temporary address that expires in half an hour. *)
Lemma create_reaches_network_iff_witness :
  requests (EmailAddressService.create Runs.rt
              (mkCreateEmailAddressOptions temporary None None
                 (Some (JS.of_Z 30)) None) Runs.offline)
  = [mkRequest POST "/email-addresses" []
       (Some (CreateBody (mkCreateEmailAddressOptions temporary None None
                            (Some (JS.of_Z 30)) None)))].
Proof.
  apply (create_reaches_network_iff Runs.rt
           (mkCreateEmailAddressOptions temporary None None
              (Some (JS.of_Z 30)) None) Runs.offline).
  apply (create_reaches_network_iff Runs.rt
           (mkCreateEmailAddressOptions temporary None None
              (Some (JS.of_Z 30)) None) Runs.offline).
  right. exists (JS.of_Z 30). repeat split.
Defined.

(** Membership in the entries appended for one optional filter. *)
Lemma in_filterParam {A} (key : string) (f : A -> QueryValue) (o : option A)
    (k : string) (v : QueryValue) :
  In (k, v) (match o with Some x => [(key, f x)] | None => [] end)
  <-> k = key /\ exists x, o = Some x /\ v = f x.
Proof.
  destruct o as [x |]; cbn.
  - split.
    + intros [E | []]. injection E as <- <-. eauto.
    + intros (-> & y & E & ->). injection E as <-. now left.
  - split; [tauto | intros (_ & y & E & _); discriminate E].
Qed.

Lemma in_numberParam (key : string) (o : option JS.number)
    (k : string) (v : QueryValue) :
  In (k, v) (match o with
             | Some n => if JS.truthy_number n then [(key, QNumber n)] else []
             | None => []
             end)
  <-> k = key /\ exists n, o = Some n /\ JS.truthy_number n = true /\ v = QNumber n.
Proof.
  destruct o as [n |]; cbn.
  - destruct (JS.truthy_number n) eqn:T; cbn.
    + split.
      * intros [E | []]. injection E as <- <-. eauto.
      * intros (-> & y & E & _ & ->). injection E as <-. now left.
    + split; [tauto | intros (_ & y & E & T' & _); congruence].
  - split; [tauto | intros (_ & y & E & _); discriminate E].
Qed.

Lemma in_paginationParams p (k : string) (v : QueryValue) :
  In (k, v) (EmailAddressService.paginationParams p)
  <-> exists o, p = Some o /\
        ((k = "page" /\ exists n, page o = Some n
                                  /\ JS.truthy_number n = true /\ v = QNumber n)
         \/ (k = "limit" /\ exists n, limit o = Some n
                                     /\ JS.truthy_number n = true /\ v = QNumber n)).
Proof.
  unfold EmailAddressService.paginationParams. destruct p as [o |].
  - rewrite in_app_iff, !in_numberParam. split.
    + intros H. exists o. tauto.
    + intros (o' & E & H). injection E as <-. exact H.
  - cbn. split; [tauto | intros (o & E & _); discriminate E].
Qed.

Lemma NoDup_paginationParams p :
  NoDup (List.map fst (EmailAddressService.paginationParams p)).
Proof.
  destruct p as [[[pn |] [ln |]] |]; cbn;
    try destruct (JS.truthy_number pn); try destruct (JS.truthy_number ln);
    compute_done.
Qed.

(** X10.  [list] of the email addresses never fails before the network:
    it makes exactly one GET of [/email-addresses].  A filter is sent
    exactly when it is set, and a page or a limit exactly when it is a
    number other than [0] and [NaN]; no key is sent twice. *)
Theorem address_list_query (rt : Runtime)
    (options : option EmailAddressService.ListOptions)
    (axios : Axios (PaginatedResponse (EmailAddressOf string))) :
  exists q,
    requests (EmailAddressService.list rt options axios)
    = [mkRequest GET "/email-addresses" q None] /\
    NoDup (List.map fst q) /\
    (options = None -> q = []) /\
    (forall o, options = Some o ->
       (forall v, In ("type", v) q
                  <-> exists t, EmailAddressService.list_type o = Some t
                                /\ v = QString (EmailAddressService.type_toString t)) /\
       (forall v, In ("status", v) q
                  <-> exists st, EmailAddressService.list_status o = Some st
                                 /\ v = QString (EmailAddressService.status_toString st)) /\
       (forall v, In ("page", v) q
                  <-> exists p n, EmailAddressService.list_pagination o = Some p
                                  /\ page p = Some n
                                  /\ JS.truthy_number n = true /\ v = QNumber n) /\
       (forall v, In ("limit", v) q
                  <-> exists p n, EmailAddressService.list_pagination o = Some p
                                  /\ limit p = Some n
                                  /\ JS.truthy_number n = true /\ v = QNumber n)).
Proof.
  eexists. split.
  { step_client. by_answer. }
  destruct options as [o |]; cbn.
  2:{ split; [constructor |]. split; [reflexivity |]. discriminate. }
  split.
  { destruct o as [[ty |] [st |] [[[pn |] [ln |]] |]]; cbn;
      try destruct (JS.truthy_number pn); try destruct (JS.truthy_number ln);
      compute_done. }
  split; [discriminate |].
  intros o' E. injection E as <-.
  repeat split; intros H;
    repeat rewrite in_app_iff in *;
    rewrite !in_filterParam, in_paginationParams in *;
    repeat match goal with
           | J : _ \/ _ |- _ => destruct J as [J | J]
           | J : exists _, _ |- _ => destruct J as [? J]
           | J : _ /\ _ |- _ => destruct J as [? ?]
           end;
    try discriminate; subst; eauto 12.
Qed.

(** X11.  [list] parses every item of the page as [get] parses its
    payload: the page it returns has as many items as the page received,
    and its i-th item is what [get] returns for an envelope that carries the
    i-th item received. *)
Theorem address_list_items_as_get (rt : Runtime)
    (options : option EmailAddressService.ListOptions) (id : string)
    (axios_list : Axios (PaginatedResponse (EmailAddressOf string)))
    (axios_get : Axios (EmailAddressOf string))
    (received : APIResponse (PaginatedResponse (EmailAddressOf string)))
    (single : APIResponse (EmailAddressOf string)) :
  id <> "" ->
  (forall req, axios_list req = inr received) -> success received = true ->
  (forall req, axios_get req = inr single) -> success single = true ->
  exists returned,
    completion (EmailAddressService.list rt options axios_list) = Return returned /\
    length (items returned) = length (items (data received)) /\
    forall i,
      nth_error (items (data received)) i = Some (data single) ->
      exists a,
        completion (EmailAddressService.get rt id axios_get) = Return a /\
        nth_error (items returned) i = Some a.
Proof.
  intros N L SL G SG. destruct id as [| c id]; [congruence |].
  step_client. cbn. rewrite L, G. cbn. autorewrite with client_eqs. cbn.
  rewrite SL, SG. eexists. split; [reflexivity |]. cbn. split.
  - apply length_map.
  - intros i E. eexists. split; [reflexivity |]. now apply map_nth_error.
Qed.

(** X11 on a page of one address. *)
Lemma address_list_items_as_get_witness :
  exists a,
    completion (EmailAddressService.get Runs.rt "addr_1"
                  (Runs.answering (mkAPIResponse Runs.address true None None)))
    = Return a /\
    option_map items
      (match completion
               (EmailAddressService.list Runs.rt None
                  (Runs.answering
                     (mkAPIResponse
                        (mkPaginatedResponse [Runs.address] (JS.of_Z 1)
                           (JS.of_Z 20) (JS.of_Z 1) (JS.of_Z 1) false false)
                        true None None))) with
       | Return p => Some p
       | Throw _ => None
       end)
    = Some [a].
Proof.
  destruct (address_list_items_as_get Runs.rt None "addr_1"
              (Runs.answering
                 (mkAPIResponse
                    (mkPaginatedResponse [Runs.address] (JS.of_Z 1)
                       (JS.of_Z 20) (JS.of_Z 1) (JS.of_Z 1) false false)
                    true None None))
              (Runs.answering (mkAPIResponse Runs.address true None None))
              _ _ ltac:(discriminate) (fun _ => eq_refl) eq_refl
              (fun _ => eq_refl) eq_refl)
    as (returned & Hl & _ & Hi).
  destruct (Hi 0%nat eq_refl) as (a & Ha & _).
  exists a. split; [exact Ha |].
  cbn in Ha. injection Ha as <-. reflexivity.
Defined.

(** ** Emails *)

(** X12.  [get], [cancel], [resend] and [getDeliveryStatus] of an email
    check the identifier first: with an empty one each throws the same
    ValidationError and makes no request; with any other each makes exactly
    the request to the resource of that identifier. *)
Theorem email_id_required (rt : Runtime) (id : string)
    (axios : Axios (SentEmailOf string)) (axios' : Axios json)
    (axios'' : Axios (EmailService.DeliveryStatusOf string)) :
  let rejected A : Outcome A :=
    mkOutcome (Throw (Mayl (ValidationError "Email ID is required" None None)))
      [] in
  (id = "" ->
     EmailService.get rt id axios = rejected _ /\
     EmailService.cancel id axios' = rejected _ /\
     EmailService.resend rt id axios = rejected _ /\
     EmailService.getDeliveryStatus rt id axios'' = rejected _) /\
  (id <> "" ->
     requests (EmailService.get rt id axios)
     = [mkRequest GET ("/emails/" +:+ id) [] None] /\
     requests (EmailService.cancel id axios')
     = [mkRequest POST ("/emails/" +:+ id +:+ "/cancel") [] None] /\
     requests (EmailService.resend rt id axios)
     = [mkRequest POST ("/emails/" +:+ id +:+ "/resend") [] None] /\
     requests (EmailService.getDeliveryStatus rt id axios'')
     = [mkRequest GET ("/emails/" +:+ id +:+ "/status") [] None]).
Proof.
  cbn zeta. split.
  - intros ->. repeat split; step_client; reflexivity.
  - intros N. destruct id as [| c id]; [congruence |].
    repeat split; step_client; cbn; by_answer.
Qed.

Lemma and_then_Return_inv c1 c2 :
  c1 >> c2 = Return tt -> c1 = Return tt /\ c2 = Return tt.
Proof. destruct c1 as [[] | e]; cbn; [auto | discriminate]. Qed.

Lemma throw_if_Return_inv cond message :
  throw_if cond message = Return tt -> cond = false.
Proof. now destruct cond. Qed.

Lemma validateEmailRecipient_Return_inv r field :
  EmailService.validateEmailRecipient r field = Return tt -> valid r.
Proof.
  intros H. destruct (valid_or_invalid r) as [V | I]; [exact V |].
  rewrite (validateEmailRecipient_invalid _ _ I) in H. discriminate H.
Qed.

Lemma validateRecipients_Return_inv array l :
  EmailService.validateRecipients array l = Return tt -> Forall valid l.
Proof.
  unfold EmailService.validateRecipients. generalize 0%nat.
  induction l as [| r l IH]; intros i H; [constructor |].
  cbn in H. apply and_then_Return_inv in H as [H1 H2].
  constructor; [now apply validateEmailRecipient_Return_inv in H1 | eauto].
Qed.

Lemma truthy_string_nonempty s : JS.truthy_string s = true <-> s <> "".
Proof. destruct s; cbn; split; congruence. Qed.

Lemma content_truthy_nonempty c :
  EmailService.content_truthy c = true <-> c <> Text "".
Proof.
  destruct c as [[| a s] | b]; cbn; split; congruence.
Qed.

Lemma validateEmailAttachment_valid a field :
  validAttachment a -> EmailService.validateEmailAttachment a field = Return tt.
Proof.
  intros (F & C & B). unfold EmailService.validateEmailAttachment.
  apply truthy_string_nonempty in F, C. apply content_truthy_nonempty in B.
  now rewrite F, C, B.
Qed.

Lemma validateEmailAttachment_invalid a field :
  ~ validAttachment a ->
  EmailService.validateEmailAttachment a field
  = Throw (Mayl (ValidationError (attachmentMessage field a) None None)).
Proof.
  intros N. unfold EmailService.validateEmailAttachment, attachmentMessage.
  destruct (JS.truthy_string (filename a)) eqn:F; [| reflexivity].
  destruct (JS.truthy_string (contentType a)) eqn:C; [| reflexivity].
  destruct (EmailService.content_truthy (content a)) eqn:B; [| reflexivity].
  exfalso. apply N. unfold validAttachment.
  now rewrite <- !truthy_string_nonempty, <- content_truthy_nonempty.
Qed.

Lemma validAttachment_dec a : {validAttachment a} + {~ validAttachment a}.
Proof.
  unfold validAttachment.
  destruct (filename a) as [| c1 s1]; [right; tauto |].
  destruct (contentType a) as [| c2 s2]; [right; tauto |].
  destruct (content a) as [[| c3 s3] | b]; [right; tauto | |];
    left; repeat split; discriminate.
Qed.

Lemma forEach_attachments_valid l i :
  Forall validAttachment l ->
  forEach (fun attachment index =>
             EmailService.validateEmailAttachment attachment
               (EmailService.indexed "attachments" index)) l i
  = Return tt.
Proof.
  intros F. revert i. induction F as [| a l V F IH]; intros i; cbn.
  - reflexivity.
  - now rewrite (validateEmailAttachment_valid _ _ V), IH.
Qed.

Lemma forEach_attachments_first_invalid good a rest i :
  Forall validAttachment good -> ~ validAttachment a ->
  forEach (fun attachment index =>
             EmailService.validateEmailAttachment attachment
               (EmailService.indexed "attachments" index))
    (good ++ a :: rest)%list i
  = Throw (Mayl (ValidationError
                   (attachmentMessage
                      (EmailService.indexed "attachments" (i + length good)%nat) a)
                   None None)).
Proof.
  intros F I. revert i. induction F as [| g good V F IH]; intros i; cbn.
  - rewrite Nat.add_0_r. now rewrite (validateEmailAttachment_invalid _ _ I).
  - rewrite (validateEmailAttachment_valid _ _ V), IH. cbn.
    now rewrite Nat.add_succ_r.
Qed.

Lemma forEach_attachments_Return_inv l i :
  forEach (fun attachment index =>
             EmailService.validateEmailAttachment attachment
               (EmailService.indexed "attachments" index)) l i
  = Return tt ->
  Forall validAttachment l.
Proof.
  revert i. induction l as [| a l IH]; intros i H; [constructor |].
  cbn in H. apply and_then_Return_inv in H as [H1 H2].
  constructor; [| eauto].
  destruct (validAttachment_dec a) as [V | N]; [exact V |].
  rewrite (validateEmailAttachment_invalid _ _ N) in H1. discriminate H1.
Qed.

Lemma Date_le_false d now :
  Date_le d (Date_at now) = false
  <-> d = Invalid_Date \/ exists t, d = Date_at t /\ now < t.
Proof.
  destruct d as [| t]; cbn.
  - split; auto.
  - rewrite Z.leb_gt. split.
    + eauto.
    + intros [E | (t' & E & L)]; [discriminate E | congruence].
Qed.

(** X13.  [validateSendOptions] returns exactly on the options that are
    [accepted]: a non-empty sender, at least one recipient, every address
    of [to], [cc] and [bcc] matching the pattern, a subject that is not
    blank, a text or an HTML body, attachments with a file name, a content
    type and a content, and a schedule that is absent, an invalid date or
    strictly after the clock. *)
Theorem validateSendOptions_accepts_iff (now : Z) (options : SendEmailOptions) :
  EmailService.validateSendOptions (Date_at now) options = Return tt
  <-> accepted now options.
Proof.
  split.
  - unfold EmailService.validateSendOptions. intros H.
    repeat match goal with
           | J : _ >> _ = Return tt |- _ =>
               apply and_then_Return_inv in J; destruct J as [J ?]
           end.
    repeat match goal with
           | J : throw_if _ _ = Return tt |- _ =>
               apply throw_if_Return_inv in J
           end.
    repeat split.
    + apply truthy_string_nonempty. now apply negb_false_iff.
    + destruct (to options); [discriminate | discriminate].
    + now apply validateRecipients_Return_inv with "to".
    + intros l E. rewrite E in *. cbn in *.
      now apply validateRecipients_Return_inv with "cc".
    + intros l E. rewrite E in *. cbn in *.
      now apply validateRecipients_Return_inv with "bcc".
    + match goal with
      | J : _ || JS.isBlank _ = false |- _ =>
          now apply orb_false_iff in J
      end.
    + match goal with
      | J : negb _ && negb _ = false |- _ =>
          apply andb_false_iff in J; destruct J as [J | J];
          apply negb_false_iff in J; auto
      end.
    + intros l E. rewrite E in *. cbn in *.
      now apply forEach_attachments_Return_inv with 0%nat.
    + intros d E. rewrite E in *. cbn in *. apply Date_le_false.
      match goal with
      | J : throw_if (Date_le _ _) _ = Return tt |- _ =>
          now apply throw_if_Return_inv in J
      end.
  - intros (W & C & A & S). rewrite (wellAddressed_checks _ _ W).
    assert (Hc : negb (JS.truthy (text options)) && negb (JS.truthy (html options))
                 = false).
    { destruct C as [-> | ->]; cbn; [reflexivity | apply andb_false_r]. }
    rewrite Hc. cbn [throw_if and_then].
    assert (Ha : when_present (attachments options)
                   (fun l =>
                      forEach (fun attachment index =>
                                 EmailService.validateEmailAttachment attachment
                                   (EmailService.indexed "attachments" index))
                        l 0)
                 = Return tt).
    { destruct (attachments options) as [l |]; cbn; [| reflexivity].
      now apply forEach_attachments_valid, A. }
    rewrite Ha. cbn [and_then].
    destruct (scheduledAt options) as [d |]; cbn; [| reflexivity].
    now rewrite (proj2 (Date_le_false d now) (S d eq_refl)).
Qed.

(** X14.  [send] reaches the network exactly when the validation returns
    and the schedule is not an invalid date, with one POST of
    [/emails/send].  A schedule that is an invalid date gets past the
    validation, and [send] then throws the [RangeError] of [toISOString],
    an error outside the taxonomy, without a request. *)
Theorem send_reaches_network_iff (rt : Runtime) (options : SendEmailOptions)
    (axios : Axios (SentEmailOf string)) :
  let o := EmailService.send rt options axios in
  (requests o <> []
   <-> EmailService.validateSendOptions (Date_at (Date_now rt)) options = Return tt
       /\ scheduledAt options <> Some Invalid_Date) /\
  (requests o <> [] ->
   exists b, requests o = [mkRequest POST "/emails/send" [] (Some (SendEmailBody b))]
             /\ body_to b = to options
             /\ body_subject b = subject options
             /\ body_attachments b
                = option_map (List.map EmailService.processAttachment)
                    (attachments options)) /\
  (EmailService.validateSendOptions (Date_at (Date_now rt)) options = Return tt ->
   scheduledAt options = Some Invalid_Date ->
   o = mkOutcome (Throw (RangeError "Invalid time value")) []).
Proof.
  cbn zeta. step_client.
  destruct (validation_validateSendOptions (Date_at (Date_now rt)) options)
    as [-> | [m ->]]; cbn.
  - destruct (scheduledAt options) as [[| t] |]; cbn;
      autorewrite with client_eqs; cbn.
    + repeat split; try congruence. intros [_ N]. congruence.
    + match goal with
      | |- context [axios ?r] => destruct (axios r)
      end; cbn; autorewrite with client_eqs; cbn;
        (repeat split; try congruence; try discriminate;
         intros _; eexists; repeat split).
    + match goal with
      | |- context [axios ?r] => destruct (axios r)
      end; cbn; autorewrite with client_eqs; cbn;
        (repeat split; try congruence; try discriminate;
         intros _; eexists; repeat split).
  - repeat split; try congruence; try discriminate. intros [N _]. congruence.
Qed.

(** X14 on a letter whose schedule is an invalid date. *)
Lemma send_reaches_network_iff_witness :
  EmailService.validateSendOptions (Date_at (Date_now Runs.rt))
    (Runs.scheduled_at Invalid_Date Runs.letter) = Return tt /\
  EmailService.send Runs.rt (Runs.scheduled_at Invalid_Date Runs.letter)
    Runs.offline
  = mkOutcome (Throw (RangeError "Invalid time value")) [].
Proof.
  split; [reflexivity |].
  apply (send_reaches_network_iff Runs.rt
           (Runs.scheduled_at Invalid_Date Runs.letter) Runs.offline);
    reflexivity.
Defined.

(** X15.  On options that are in order up to the attachments, [send]
    throws the ValidationError of the first attachment that is not valid,
    and makes no request; the message names the index of the attachment and
    the first of [filename], [contentType], [content] that it lacks. *)
Theorem send_first_invalid_attachment (rt : Runtime) (options : SendEmailOptions)
    (axios : Axios (SentEmailOf string))
    (good : list EmailAttachment) (a : EmailAttachment)
    (rest : list EmailAttachment) :
  wellAddressed options ->
  JS.truthy (text options) = true \/ JS.truthy (html options) = true ->
  attachments options = Some (good ++ a :: rest)%list ->
  Forall validAttachment good ->
  ~ validAttachment a ->
  EmailService.send rt options axios
  = mkOutcome
      (Throw (Mayl (ValidationError
                      (attachmentMessage
                         (EmailService.indexed "attachments" (length good)) a)
                      None None)))
      [].
Proof.
  intros W C E F N. apply send_rejected.
  rewrite (wellAddressed_checks _ _ W), E.
  assert (Hc : negb (JS.truthy (text options)) && negb (JS.truthy (html options))
               = false).
  { destruct C as [-> | ->]; cbn; [reflexivity | apply andb_false_r]. }
  rewrite Hc. cbn [throw_if and_then when_present].
  now rewrite (forEach_attachments_first_invalid good a rest 0 F N).
Qed.

(** X15 on a letter whose second attachment has an empty content; the
    first, an empty [Buffer], is accepted. *)
Lemma send_first_invalid_attachment_witness :
  wellAddressed Attachments.letter /\
  ~ validAttachment Attachments.blank /\
  EmailService.send Runs.rt Attachments.letter Runs.offline
  = mkOutcome
      (Throw (Mayl (ValidationError "attachments[1].content is required"
                      None None)))
      [].
Proof.
  assert (W : wellAddressed Attachments.letter).
  { repeat split; try discriminate; repeat constructor. }
  assert (N : ~ validAttachment Attachments.blank).
  { intros (_ & _ & C). now apply C. }
  split; [exact W |]. split; [exact N |].
  apply (send_first_invalid_attachment Runs.rt Attachments.letter Runs.offline
           [Attachments.report] Attachments.blank [] W (or_introl eq_refl)
           eq_refl).
  - repeat constructor; discriminate.
  - exact N.
Defined.

Lemma in_stringParam (key : string) (o : option string)
    (k : string) (v : QueryValue) :
  In (k, v) (EmailService.stringParam key o)
  <-> k = key /\ exists s, o = Some s /\ s <> "" /\ v = QString s.
Proof.
  unfold EmailService.stringParam. destruct o as [[| c s] |]; cbn.
  - split; [tauto | intros (_ & s & E & N & _); congruence].
  - split.
    + intros [E | []]. injection E as <- <-. split; [reflexivity |].
      eexists. repeat split. discriminate.
    + intros (-> & s' & E & _ & ->). injection E as <-. now left.
  - split; [tauto | intros (_ & s & E & _); discriminate E].
Qed.

Lemma in_dateParam (key : string) (d : option Date) l
    (k : string) (v : QueryValue) :
  EmailService.dateParam key d = Return l ->
  In (k, v) l <-> k = key /\ exists t, d = Some (Date_at t) /\ v = QDate (ISO t).
Proof.
  destruct d as [[| t] |]; cbn; intros E; try discriminate E;
    injection E as <-; cbn.
  - split.
    + intros [E | []]. injection E as <- <-. eauto.
    + intros (-> & t' & E & ->). injection E as <-. now left.
  - split; [tauto | intros (_ & t & E & _); discriminate E].
Qed.

Lemma dateParam_cases key d :
  (d = Some Invalid_Date
   /\ EmailService.dateParam key d = Throw (RangeError "Invalid time value"))
  \/ (d <> Some Invalid_Date /\ exists l, EmailService.dateParam key d = Return l).
Proof.
  destruct d as [[| t] |]; cbn; [left | right | right]; split;
    try reflexivity; try discriminate; eauto.
Qed.

(** X16.  [list] of the emails throws the [RangeError] of [toISOString],
    without a request, when [since] or [until] is an invalid date;
    otherwise it makes exactly one GET of [/emails], with no query at all
    when no options are given, with [since] and [until] exactly when they
    are given, as their ISO strings, and with [fromEmailId] exactly when it
    is given and not empty. *)
Theorem email_list_query (rt : Runtime) (options : option EmailService.ListOptions)
    (axios : Axios (PaginatedResponse (SentEmailOf string))) :
  (forall o, options = Some o ->
     EmailService.since o = Some Invalid_Date
     \/ EmailService.until o = Some Invalid_Date ->
     EmailService.list rt options axios
     = mkOutcome (Throw (RangeError "Invalid time value")) []) /\
  (options = None ->
   requests (EmailService.list rt options axios)
   = [mkRequest GET "/emails" [] None]) /\
  (forall o, options = Some o ->
     EmailService.since o <> Some Invalid_Date ->
     EmailService.until o <> Some Invalid_Date ->
     exists q,
       requests (EmailService.list rt options axios)
       = [mkRequest GET "/emails" q None] /\
       (forall v, In ("since", v) q
                  <-> exists t, EmailService.since o = Some (Date_at t)
                                /\ v = QDate (ISO t)) /\
       (forall v, In ("until", v) q
                  <-> exists t, EmailService.until o = Some (Date_at t)
                                /\ v = QDate (ISO t)) /\
       (forall v, In ("fromEmailId", v) q
                  <-> exists s, EmailService.list_fromEmailId o = Some s
                                /\ s <> "" /\ v = QString s)).
Proof.
  repeat split.
  - intros o -> I. step_client.
    destruct (dateParam_cases "since" (EmailService.since o))
      as [[Es ->] | [Ns [ls ->]]]; [reflexivity |].
    destruct (dateParam_cases "until" (EmailService.until o))
      as [[Eu ->] | [Nu [lu ->]]]; [reflexivity |].
    destruct I; congruence.
  - intros ->. step_client. cbn. by_answer.
  - intros o -> Ns Nu. step_client.
    destruct (dateParam_cases "since" (EmailService.since o))
      as [[Es _] | [_ [ls Ls]]]; [congruence |].
    destruct (dateParam_cases "until" (EmailService.until o))
      as [[Eu _] | [_ [lu Lu]]]; [congruence |].
    rewrite Ls, Lu. cbn. autorewrite with client_eqs. cbn.
    eexists. split; [by_answer |].
    repeat split; intros H;
      repeat rewrite in_app_iff in *;
      rewrite !in_stringParam, !in_filterParam, in_paginationParams,
        (in_dateParam _ _ _ _ _ Ls), (in_dateParam _ _ _ _ _ Lu) in *;
      repeat match goal with
             | J : _ \/ _ |- _ => destruct J as [J | J]
             | J : exists _, _ |- _ => destruct J as [? J]
             | J : _ /\ _ |- _ => destruct J as [? ?]
             end;
      try discriminate; subst; eauto 12.
Qed.

(** ** The configuration *)

(** X17.  The facade is constructed exactly from a configuration with a
    non-empty API key and a timeout that is missing, [undefined] or not
    [<= 0].  The base URL and the timeout of axios are then the given
    ones, also when the given base URL is the empty string; the defaults
    [http://api.mayl.ng:8080] and [30000] when the keys are missing; and,
    when a key is there with the value [undefined], no base URL at all and
    the timeout [0] of axios itself, the defaults of the SDK being
    overwritten by the spread. *)
Theorem constructor_accepts_iff (config : InboxSDKConfig) :
  ((exists state, Facade.constructor config = Return state)
   <-> apiKey config <> ""
       /\ forall t, timeout config = Given t -> JS.le_zero t = false) /\
  (forall state,
     Facade.constructor config = Return state ->
     required_apiKey (this_config state) = apiKey config /\
     (forall b, baseUrl config = Given b -> defaults_baseURL state = Some b) /\
     (baseUrl config = Absent ->
      defaults_baseURL state = Some "http://api.mayl.ng:8080") /\
     (baseUrl config = Undefined -> defaults_baseURL state = None) /\
     (forall t, timeout config = Given t -> defaults_timeout state = t) /\
     (timeout config = Absent -> defaults_timeout state = JS.of_Z 30000) /\
     (timeout config = Undefined ->
      defaults_timeout state = JS.of_Z 0
      /\ required_timeout (this_config state) = None)).
Proof.
  unfold Facade.constructor, Facade.validateConfig. split.
  - destruct (apiKey config) as [| c k]; cbn.
    + split; [intros [s E]; discriminate E | intros [N _]; congruence].
    + destruct (timeout config) as [| | t]; cbn.
      * split; [| eauto]. intros _. split; [discriminate |]. discriminate.
      * split; [| eauto]. intros _. split; [discriminate |]. discriminate.
      * destruct (JS.le_zero t) eqn:L; cbn.
        -- split; [intros [s E]; discriminate E |].
           intros [_ H]. specialize (H t eq_refl). congruence.
        -- split; [| eauto]. intros _. split; [discriminate |].
           intros t' E. congruence.
  - intros state.
    destruct (throw_if _ _ >> _); [| discriminate].
    intros E. injection E as <-. cbn.
    split; [reflexivity |].
    split; [intros b ->; reflexivity |].
    split; [intros ->; reflexivity |].
    split; [intros ->; reflexivity |].
    split; [intros t ->; reflexivity |].
    split; [intros ->; reflexivity |].
    intros ->. split; reflexivity.
Qed.

Lemma consistent_constructor config state :
  Facade.constructor config = Return state -> consistent config state.
Proof.
  unfold Facade.constructor, Facade.validateConfig.
  destruct (apiKey config) as [| c k] eqn:K; cbn; [discriminate |].
  destruct (match timeout config with
            | Given t => _
            | _ => _
            end); [| discriminate].
  intros E. injection E as <-. unfold consistent. cbn. rewrite K.
  repeat split; try discriminate.
Qed.

Lemma consistent_call config u state :
  consistent config state -> consistent config (snd (Facade.call u state)).
Proof.
  intros (K & A & B & T & T' & C & U).
  destruct u as [[| c k] | [| c b]]; cbn; unfold consistent; cbn;
    repeat split; auto; try discriminate.
  - apply lookup_insert_eq.
  - now rewrite lookup_insert_ne.
  - now rewrite lookup_insert_ne.
Qed.

(** X18.  Once the facade is constructed, every sequence of calls of
    [updateApiKey] and [updateBaseUrl], accepted or rejected, leaves the
    client consistent: its key is never empty, its [Authorization] header
    is always [Bearer <key>] for the key it holds, the base URL of axios is
    the configured one, and the timeout and the other headers stay as
    constructed (the timeout of axios being the given one, [30000] when the
    key is missing, and [0] when it is there with the value
    [undefined]). *)
Theorem updates_keep_consistent (config : InboxSDKConfig)
    (state : HTTPClientState) (calls : list Facade.Update) :
  Facade.constructor config = Return state ->
  consistent config (Facade.after calls state).
Proof.
  intros H. apply consistent_constructor in H. unfold Facade.after.
  revert state H. induction calls as [| u calls IH]; intros state H; cbn.
  - exact H.
  - apply IH. now apply consistent_call.
Qed.

(** X18 on a client whose key is rotated after a rejected update. *)
Lemma updates_keep_consistent_witness :
  Facade.constructor (mkInboxSDKConfig "key_1" Absent Undefined)
  = Return (HTTPClientConfig.constructor
              (mkInboxSDKConfig "key_1" Absent Undefined)) /\
  defaults_headers
    (Facade.after [Facade.UpdateApiKey ""; Facade.UpdateApiKey "key_2";
                   Facade.UpdateBaseUrl "https://api.example.com"]
       (HTTPClientConfig.constructor
          (mkInboxSDKConfig "key_1" Absent Undefined)))
  !! "Authorization"
  = Some "Bearer key_2" /\
  defaults_timeout
    (Facade.after [Facade.UpdateApiKey ""; Facade.UpdateApiKey "key_2";
                   Facade.UpdateBaseUrl "https://api.example.com"]
       (HTTPClientConfig.constructor
          (mkInboxSDKConfig "key_1" Absent Undefined)))
  = JS.of_Z 0.
Proof.
  split; [reflexivity |].
  destruct (updates_keep_consistent (mkInboxSDKConfig "key_1" Absent Undefined)
              (HTTPClientConfig.constructor
                 (mkInboxSDKConfig "key_1" Absent Undefined))
              [Facade.UpdateApiKey ""; Facade.UpdateApiKey "key_2";
               Facade.UpdateBaseUrl "https://api.example.com"] eq_refl)
    as (_ & A & _ & _ & T & _).
  exact (conj A T).
Defined.

(** X19.  The last accepted update decides: after any calls, a further
    [updateApiKey] with a non-empty key leaves that key and its bearer
    header and touches nothing else of the state; with an empty key it
    throws and leaves the state as it was; and likewise for
    [updateBaseUrl]. *)
Theorem update_last_wins (state : HTTPClientState) (calls : list Facade.Update)
    (value : string) :
  let before := Facade.after calls state in
  (value = "" ->
     Facade.after (calls ++ [Facade.UpdateApiKey value]) state = before /\
     Facade.after (calls ++ [Facade.UpdateBaseUrl value]) state = before /\
     returns (fst (Facade.updateApiKey value before)) = false /\
     returns (fst (Facade.updateBaseUrl value before)) = false) /\
  (value <> "" ->
     let keyed := Facade.after (calls ++ [Facade.UpdateApiKey value]) state in
     let based := Facade.after (calls ++ [Facade.UpdateBaseUrl value]) state in
     required_apiKey (this_config keyed) = value /\
     defaults_headers keyed !! "Authorization" = Some ("Bearer " +:+ value) /\
     required_baseUrl (this_config keyed) = required_baseUrl (this_config before) /\
     defaults_baseURL keyed = defaults_baseURL before /\
     required_baseUrl (this_config based) = Some value /\
     defaults_baseURL based = Some value /\
     required_apiKey (this_config based) = required_apiKey (this_config before) /\
     defaults_headers based = defaults_headers before).
Proof.
  cbn zeta. unfold Facade.after. rewrite !fold_left_app. cbn. split.
  - intros ->. repeat split.
  - intros N. destruct value as [| c v]; [congruence |]. cbn.
    repeat split. apply lookup_insert_eq.
Qed.

(** ** Across the operations *)



(** X21.  A subject made of white space only is refused like an empty
    one: with a sender and recipients in order, [send] throws
    [Subject is required] and makes no request. *)
Theorem send_blank_subject (rt : Runtime) (options : SendEmailOptions)
    (axios : Axios (SentEmailOf string)) :
  fromEmailId options <> "" ->
  to options <> [] ->
  Forall valid (to options) ->
  (forall l, cc options = Some l -> Forall valid l) ->
  (forall l, bcc options = Some l -> Forall valid l) ->
  JS.isBlank (subject options) = true ->
  EmailService.send rt options axios
  = mkOutcome (Throw (Mayl (ValidationError "Subject is required" None None))) [].
Proof.
  intros Hfrom Hto Fto Fcc Fbcc B. apply send_rejected.
  unfold EmailService.validateSendOptions.
  destruct (fromEmailId options) as [| c s]; [congruence |].
  destruct (to options) as [| r l] eqn:E; [congruence |].
  cbn [JS.truthy_string negb throw_if and_then].
  rewrite (validateRecipients_valid _ _ Fto).
  assert (Hcc : when_present (cc options) (EmailService.validateRecipients "cc")
                = Return tt).
  { destruct (cc options) as [lc |]; cbn; [| reflexivity].
    now apply validateRecipients_valid, Fcc. }
  assert (Hbcc : when_present (bcc options) (EmailService.validateRecipients "bcc")
                 = Return tt).
  { destruct (bcc options) as [lb |]; cbn; [| reflexivity].
    now apply validateRecipients_valid, Fbcc. }
  rewrite Hcc, Hbcc, B, orb_true_r. reflexivity.
Qed.

(** X22.  [list] of the emails, with any options whose [since] and
    [until] are not invalid dates, parses every item of the page as [get]
    parses its payload: the page it returns has as many items as the page
    received, and its i-th item is what [get] returns for an envelope that
    carries the i-th item received. *)
Theorem email_list_items_as_get (rt : Runtime)
    (options : option EmailService.ListOptions) (id : string)
    (axios_list : Axios (PaginatedResponse (SentEmailOf string)))
    (axios_get : Axios (SentEmailOf string))
    (received : APIResponse (PaginatedResponse (SentEmailOf string)))
    (single : APIResponse (SentEmailOf string)) :
  id <> "" ->
  (forall o, options = Some o ->
     EmailService.since o <> Some Invalid_Date
     /\ EmailService.until o <> Some Invalid_Date) ->
  (forall req, axios_list req = inr received) -> success received = true ->
  (forall req, axios_get req = inr single) -> success single = true ->
  exists returned,
    completion (EmailService.list rt options axios_list) = Return returned /\
    length (items returned) = length (items (data received)) /\
    forall i,
      nth_error (items (data received)) i = Some (data single) ->
      exists a,
        completion (EmailService.get rt id axios_get) = Return a /\
        nth_error (items returned) i = Some a.
Proof.
  intros N D L SL G SG. destruct id as [| c id]; [congruence |].
  step_client.
  assert (P : exists q,
            match options with
            | Some o =>
                match EmailService.dateParam "since" (EmailService.since o) with
                | Return s =>
                    match EmailService.dateParam "until" (EmailService.until o) with
                    | Return u =>
                        Return
                          (EmailService.stringParam "fromEmailId"
                             (EmailService.list_fromEmailId o) ++
                           match EmailService.list_status o with
                           | Some st =>
                               [("status",
                                 QString (EmailService.status_toString st))]
                           | None => []
                           end ++
                           EmailService.stringParam "threadId"
                             (EmailService.list_threadId o) ++
                           s ++ u ++
                           EmailAddressService.paginationParams
                             (EmailService.list_pagination o))%list
                    | Throw e => Throw e
                    end
                | Throw e => Throw e
                end
            | None => Return []
            end = Return q).
  { destruct options as [o |]; [| eauto].
    destruct (D o eq_refl) as [Ns Nu].
    destruct (dateParam_cases "since" (EmailService.since o))
      as [[Es _] | [_ [ls ->]]]; [congruence |].
    destruct (dateParam_cases "until" (EmailService.until o))
      as [[Eu _] | [_ [lu ->]]]; [congruence |].
    eauto. }
  destruct P as [q ->]. cbn. autorewrite with client_eqs. cbn.
  rewrite L, G. cbn. autorewrite with client_eqs. cbn.
  rewrite SL, SG. eexists. split; [reflexivity |]. cbn. split.
  - apply length_map.
  - intros i E. eexists. split; [reflexivity |]. now apply map_nth_error.
Qed.

Lemma toISOString_opt_Throw d e :
  EmailService.toISOString_opt d = Throw e -> e = RangeError "Invalid time value".
Proof. destruct d as [[| t] |]; cbn; congruence. Qed.

Lemma validation_address_validateId id :
  validation (EmailAddressService.validateId id).
Proof. apply validation_throw_if. Qed.

Lemma validation_email_validateId id : validation (EmailService.validateId id).
Proof. apply validation_throw_if. Qed.

#[export] Hint Resolve validation_address_validateId validation_email_validateId
  validation_validateCreateOptions validation_validateSendOptions : client.

(** Splits a guard that is a validation step. *)
Ltac split_validation :=
  match goal with
  | |- context [match ?v with Return _ => _ | Throw _ => _ end] =>
      let V := fresh "V" in
      assert (V : validation v) by auto with client;
      destruct V as [-> | [? ->]]; cbn; autorewrite with client_eqs; cbn zeta
  end.

(** X23.  An operation that fails without having made a request fails
    with a ValidationError that names no field, or, for [send] and the
    [list] of emails, with the [RangeError] of an invalid date; nothing
    else is thrown before the network. *)
Theorem pre_network_failures (rt : Runtime) (op : Operation)
    (axios : Axios (payload op)) (e : Exn) :
  requests (run rt op axios) = [] ->
  completion (run rt op axios) = Throw e ->
  pre_network e.
Proof.
  unfold pre_network.
  destruct op; cbn [payload] in *;
    try (step_client; repeat split_validation;
         try by_answer;
         intros R C; cbn in R, C; try discriminate R;
         injection C as <-; eauto; fail).
  - (* send *)
    step_client. split_validation.
    + destruct (EmailService.toISOString_opt (scheduledAt options)) eqn:T;
        cbn; autorewrite with client_eqs; cbn.
      * by_answer; discriminate.
      * intros _ C. injection C as <-. right.
        now apply toISOString_opt_Throw in T.
    + intros _ C. injection C as <-. eauto.
  - (* list of emails *)
    step_client. destruct options as [o |]; cbn.
    + destruct (dateParam_cases "since" (EmailService.since o))
        as [[_ ->] | [_ [ls ->]]]; cbn.
      * intros _ C. injection C as <-. now right.
      * destruct (dateParam_cases "until" (EmailService.until o))
          as [[_ ->] | [_ [lu ->]]]; cbn; autorewrite with client_eqs; cbn.
        -- intros _ C. injection C as <-. now right.
        -- by_answer; discriminate.
    + autorewrite with client_eqs. cbn. by_answer; discriminate.
  - (* healthCheck *)
    cbn [run]. rewrite healthCheck_eq.
    destruct (axios healthRequest); discriminate.
Qed.

(** X21 on a subject of a space, a tab and a no-break space. *)
Lemma send_blank_subject_witness :
  JS.isBlank (subject Letters.blank_subject) = true /\
  EmailService.send Runs.rt Letters.blank_subject Runs.offline
  = mkOutcome (Throw (Mayl (ValidationError "Subject is required" None None))) [].
Proof.
  split; [reflexivity |].
  apply (send_blank_subject Runs.rt Letters.blank_subject Runs.offline);
    try discriminate; try reflexivity.
  repeat constructor.
Defined.

(** X22 on a page of one email, listed with a sender and a date. *)
Lemma email_list_items_as_get_witness :
  EmailService.since Letters.recent <> Some Invalid_Date /\
  EmailService.until Letters.recent <> Some Invalid_Date /\
  exists a,
    completion (EmailService.get Runs.rt "email_1"
                  (Runs.answering
                     (mkAPIResponse Letters.delivered_email true None None)))
    = Return a /\
    option_map items
      (match completion
               (EmailService.list Runs.rt (Some Letters.recent)
                  (Runs.answering
                     (mkAPIResponse Letters.one_page true None None))) with
       | Return p => Some p
       | Throw _ => None
       end)
    = Some [a].
Proof.
  split; [discriminate |]. split; [discriminate |].
  assert (D : forall o, Some Letters.recent = Some o ->
                EmailService.since o <> Some Invalid_Date
                /\ EmailService.until o <> Some Invalid_Date).
  { intros o E. injection E as <-. split; discriminate. }
  destruct (email_list_items_as_get Runs.rt (Some Letters.recent) "email_1"
              (Runs.answering (mkAPIResponse Letters.one_page true None None))
              (Runs.answering
                 (mkAPIResponse Letters.delivered_email true None None))
              _ _ ltac:(discriminate) D
              (fun _ => eq_refl) eq_refl (fun _ => eq_refl) eq_refl)
    as (returned & Hl & _ & Hi).
  destruct (Hi 0%nat eq_refl) as (a & Ha & _).
  exists a. split; [exact Ha |].
  cbn in Ha. injection Ha as <-.
  cbn in Hl. injection Hl as <-. reflexivity.
Defined.

(** X23 on [extend] by zero minutes. *)
Lemma pre_network_failures_witness :
  requests (run Runs.rt (AddressExtend "addr_1" (JS.of_Z 0)) Runs.offline) = [] /\
  pre_network
    (Mayl (ValidationError "Additional minutes must be a positive number"
             None None)).
Proof.
  split; [reflexivity |].
  exact (pre_network_failures Runs.rt (AddressExtend "addr_1" (JS.of_Z 0))
           Runs.offline _ eq_refl eq_refl).
Defined.
